(** * Friend workflow and recommendations of the MERN friend-app backend

    A shallow embedding of [routes/friend.js] and of the [User] schema
    ([models/User.js]), with the properties the specification states about
    them.

    Conventions of the embedding.

    - An [ObjectId] is a 12-byte value; it is modelled by its numeric value.
      [toString()] renders it as 24 hexadecimal digits in lower case.
    - The identifiers of a request are the values the client sent: a field
      of a JSON body is a string or a number here, a segment of the URL is a
      string.  [ObjectId.isValid] and the cast that Mongoose applies in
      [findById], in a query condition and in [push] accept a string of 24
      hexadecimal digits of either case; [isValid] also accepts a number,
      which the cast refuses with a [CastError].  The handlers compare the
      strings they were sent ([===], [includes], [id.toString() !== friendId])
      and not the identifiers the strings are cast to.
    - The [users] collection is a finite map from [_id] to the stored
      document: MongoDB keeps [_id] unique.
    - A document obtained by [findById] is an in-memory copy that tracks
      which array paths were pushed to or assigned; [save()] sends only those
      changes, as Mongoose does.  Two [findById] calls give two independent
      copies, also when they name the same user.
    - The handlers run one at a time, each to completion, past the [auth]
      middleware; the clock value used for the default [timestamp] of a
      notification is an argument.
    - [User.find] without a sort lists the matching documents in the order
      the collection enumerates them; here that is the order of their
      [_id]s, which is the order of insertion for generated identifiers. *)

From stdpp Require Import base list strings gmap sorting.
From Stdlib Require Import ZArith Lia HexString.

(** ** The [User] schema *)

Definition ObjectId := N.
Bind Scope N_scope with ObjectId.

Record Notification := mkNotification {
  message : string;
  timestamp : N
}.

Record User := mkUser {
  username : string;
  password : string;
  friends : list ObjectId;
  friendRequests : list ObjectId;
  interests : list string;
  notifications : list Notification;
  version : N (* the [__v] key Mongoose adds to every schema *)
}.

(** The collection. *)
Abbreviation Store := (gmap ObjectId User).

(** ** Identifiers as requests carry them *)

(** [id.toString()]: the hexadecimal digits of the value, lower case,
    preceded by the zeros that make them 24. *)
Definition toString (id : ObjectId) : string :=
  let digits := match id with
                | N0 => EmptyString
                | Npos p => HexString.Raw.of_pos p EmptyString
                end in
  Nat.iter (24 - String.length digits) (String.append "0") digits.

Definition isHexDigit (c : Ascii.ascii) : bool :=
  match HexString.ascii_to_digit c with
  | Some _ => true
  | None => false
  end.

Fixpoint allHexDigits (s : string) : bool :=
  match s with
  | EmptyString => true
  | String c s' => isHexDigit c && allHexDigits s'
  end.

(** The strings that spell an ObjectId: [/^[0-9a-fA-F]{24}$/]. *)
Definition hex24 (s : string) : bool :=
  (String.length s =? 24) && allHexDigits s.

(** A value of [req.body]; a number is modelled when it is an integer. *)
Inductive Json : Type :=
  | JString (s : string)
  | JNumber (x : Z).

#[global] Instance Json_eq_dec : EqDecision Json.
Proof. solve_decision. Defined.

(** [mongoose.Types.ObjectId.isValid(id)] *)
Definition isValid (id : Json) : bool :=
  match id with
  | JString s => hex24 s
  | JNumber _ => true
  end.

(** The cast of a value to an [ObjectId]; [None] is the [CastError] that
    Mongoose raises. *)
Definition castObjectId (id : Json) : option ObjectId :=
  match id with
  | JString s => if hex24 s then Some (HexString.Raw.to_N s 0) else None
  | JNumber _ => None
  end.

(** [a === b] on two values of a request. *)
Definition strictEq (a b : Json) : bool := bool_decide (a = b).

(** The value [id.toString()], as a request can carry it: the canonical
    spelling of [id]. *)
Definition canon (id : ObjectId) : Json := JString (toString id).

(** An identifier whose rendering has its 24 digits: it fits 12 bytes. *)
Definition twelveBytes (id : ObjectId) : Prop := hex24 (toString id) = true.

(** A value that, when it spells an identifier, is its canonical spelling. *)
Definition wellSpelled (x : Json) : Prop :=
  match castObjectId x with
  | Some id => x = canon id
  | None => True
  end.

(** ** Mongoose documents with change tracking *)

(** What [save()] will send for one array path. *)
Inductive Atomic (A : Type) : Type :=
  | Clean                      (* path not modified *)
  | Pushed (xs : list A)       (* [$push] of the values given to [push] *)
  | Assigned.                  (* [$set] of the whole array *)
Arguments Clean {A}.
Arguments Pushed {A} xs.
Arguments Assigned {A}.

Record Doc := mkDoc {
  _id : ObjectId;
  cur : User;                              (* the values the handler reads *)
  at_friends : Atomic ObjectId;
  at_friendRequests : Atomic ObjectId;
  at_notifications : Atomic Notification
}.

(** [User.findById(id)]: [None] is the [CastError] raised for a value that
    is not cast, [Some None] is JavaScript's [null]. *)
Definition findById (s : Store) (id : Json) : option (option Doc) :=
  (λ id, (λ u, mkDoc id u Clean Clean Clean) <$> s !! id) <$> castObjectId id.

(** [array.push(x)] on a tracked array. *)
Definition pushed {A} (a : Atomic A) (x : A) : Atomic A :=
  match a with
  | Clean => Pushed [x]
  | Pushed xs => Pushed (xs ++ [x])
  | Assigned => Assigned
  end.

(** [array.includes(x)] on an array of ObjectIds, [x] a value of the
    request: Mongoose looks for an element [e] with [x == e], and [==]
    compares a string with the rendering of [e].  (With a number [==]
    would read that rendering as a number; no route gets here with a
    number, [findById] has raised before.) *)
Definition includes (l : list ObjectId) (x : Json) : bool :=
  bool_decide (Exists (λ e, x = canon e) l).

(** [array.includes(x)] on an array of strings. *)
Definition includesString {A} `{EqDecision A} (l : list A) (x : A) : bool :=
  bool_decide (x ∈ l).

Definition set_friends_of (u : User) (v : list ObjectId) : User :=
  mkUser (username u) (password u) v (friendRequests u) (interests u)
         (notifications u) (version u).

Definition set_friendRequests_of (u : User) (v : list ObjectId) : User :=
  mkUser (username u) (password u) (friends u) v (interests u)
         (notifications u) (version u).

Definition set_notifications_of (u : User) (v : list Notification) : User :=
  mkUser (username u) (password u) (friends u) (friendRequests u) (interests u)
         v (version u).

(** [doc.friends.push(x)]: the value is cast to the type of the array's
    elements; [None] is the [CastError]. *)
Definition friends_push (d : Doc) (x : Json) : option Doc :=
  (λ id, mkDoc (_id d) (set_friends_of (cur d) (friends (cur d) ++ [id]))
           (pushed (at_friends d) id) (at_friendRequests d) (at_notifications d))
  <$> castObjectId x.

(** [doc.friendRequests.push(x)] *)
Definition friendRequests_push (d : Doc) (x : Json) : option Doc :=
  (λ id, mkDoc (_id d)
           (set_friendRequests_of (cur d) (friendRequests (cur d) ++ [id]))
           (at_friends d) (pushed (at_friendRequests d) id) (at_notifications d))
  <$> castObjectId x.

(** [doc.notifications.push({ message: m })]; the schema default fills in
    [timestamp] with the clock. *)
Definition notifications_push (now : N) (d : Doc) (m : string) : Doc :=
  let n := mkNotification m now in
  mkDoc (_id d) (set_notifications_of (cur d) (notifications (cur d) ++ [n]))
        (at_friends d) (at_friendRequests d) (pushed (at_notifications d) n).

(** [doc.friends = v]: an assignment of a value deep-equal to the current
    one does not mark the path modified. *)
Definition friends_assign (d : Doc) (v : list ObjectId) : Doc :=
  if decide (v = friends (cur d)) then d
  else mkDoc (_id d) (set_friends_of (cur d) v)
             Assigned (at_friendRequests d) (at_notifications d).

(** [doc.friendRequests = v] *)
Definition friendRequests_assign (d : Doc) (v : list ObjectId) : Doc :=
  if decide (v = friendRequests (cur d)) then d
  else mkDoc (_id d) (set_friendRequests_of (cur d) v)
             (at_friends d) Assigned (at_notifications d).

Definition is_clean {A} (a : Atomic A) : bool :=
  match a with Clean => true | _ => false end.

Definition is_assigned {A} (a : Atomic A) : bool :=
  match a with Assigned => true | _ => false end.

(** The stored array after the update of one path. *)
Definition apply_atomic {A} (a : Atomic A) (stored current : list A) : list A :=
  match a with
  | Clean => stored
  | Pushed xs => stored ++ xs
  | Assigned => current
  end.

(** The stored document after the update [save()] sends for the copy [d]:
    the modified paths are written and [__v] is incremented. *)
Definition commit (d : Doc) (db : User) : User :=
  mkUser (username db) (password db)
    (apply_atomic (at_friends d) (friends db) (friends (cur d)))
    (apply_atomic (at_friendRequests d) (friendRequests db) (friendRequests (cur d)))
    (interests db)
    (apply_atomic (at_notifications d) (notifications db) (notifications (cur d)))
    (version db + 1)%N.

Definition unmodified (d : Doc) : bool :=
  is_clean (at_friends d) && is_clean (at_friendRequests d)
  && is_clean (at_notifications d).

(** Whether the update is conditioned on the [__v] the copy was loaded
    with: it is when a whole array is assigned, not for [$push] alone. *)
Definition versioned (d : Doc) : bool :=
  is_assigned (at_friends d) || is_assigned (at_friendRequests d)
  || is_assigned (at_notifications d).

(** [doc.save()].  Nothing is sent for an unmodified document.  A versioned
    update that finds another [__v] in the collection, or an update of a
    document that is not there, raises: that is [None]. *)
Definition save (s : Store) (d : Doc) : option Store :=
  if unmodified d then Some s
  else
    match s !! _id d with
    | None => None
    | Some db =>
        if versioned d && negb (bool_decide (version db = version (cur d)))
        then None
        else Some (<[_id d := commit d db]> s)
    end.

(** ** HTTP responses *)

Record Response := mkResponse {
  status : nat;
  msg : string
}.

(** The [catch] branch shared by all handlers. *)
Definition serverError : Response :=
  mkResponse 500 "Server error, please try again.".

Definition userNotFound : Response := mkResponse 404 "User not found".

(** The answers to identifiers that [isValid] refuses. *)
Definition invalidUserIds : Response := mkResponse 400 "Invalid user IDs".
Definition invalidUserId : Response := mkResponse 400 "Invalid user ID".

(** The failure kinds of the specification, as the responses the routes
    send for them.  No route has a response for [NotFriends]. *)
Definition InvalidArgument : Response :=
  mkResponse 400 "You cannot add yourself as a friend.".
Definition AlreadyFriends : Response :=
  mkResponse 400 "You are already friends.".
Definition DuplicateRequest : Response :=
  mkResponse 400 "Friend request already sent.".
Definition NoSuchRequest : Response :=
  mkResponse 400 "No friend request from this user.".

(** ** The workflow routes *)

(** [router.post('/request')] *)
Definition sendRequest (now : N) (userId friendId : Json) (s : Store)
  : Store * Response :=
  if negb (isValid userId) || negb (isValid friendId) then (s, invalidUserIds)
  else if strictEq userId friendId then (s, InvalidArgument)
  else
    match findById s userId, findById s friendId with
    | Some user, Some friend =>
        match user, friend with
        | Some user, Some friend =>
            if includes (friends (cur user)) friendId
               || includes (friends (cur friend)) userId
            then (s, AlreadyFriends)
            else if includes (friendRequests (cur friend)) userId
            then (s, DuplicateRequest)
            else
              match friendRequests_push friend userId with
              | None => (s, serverError)
              | Some friend =>
                  let friend :=
                    notifications_push now friend
                      (username (cur user) +:+ " has sent you a friend request.") in
                  match save s friend with
                  | Some s1 => (s1, mkResponse 200 "Friend request sent")
                  | None => (s, serverError)
                  end
              end
        | _, _ => (s, userNotFound)
        end
    | _, _ => (s, serverError)
    end.

(** [router.post('/accept')] *)
Definition acceptRequest (now : N) (userId friendId : Json) (s : Store)
  : Store * Response :=
  if negb (isValid userId) || negb (isValid friendId) then (s, invalidUserIds)
  else
    match findById s userId, findById s friendId with
    | Some user, Some friend =>
        match user, friend with
        | Some user, Some friend =>
            if negb (includes (friendRequests (cur user)) friendId)
            then (s, NoSuchRequest)
            else
              match friends_push user friendId, friends_push friend userId with
              | Some user, Some friend =>
                  let user :=
                    friendRequests_assign user
                      (filter (λ id, canon id ≠ friendId)
                              (friendRequests (cur user))) in
                  let friend :=
                    notifications_push now friend
                      (username (cur user) +:+ " has accepted your friend request.") in
                  match save s user with
                  | None => (s, serverError)
                  | Some s1 =>
                      match save s1 friend with
                      | None => (s1, serverError)
                      | Some s2 => (s2, mkResponse 200 "Friend request accepted.")
                      end
                  end
              | _, _ => (s, serverError)
              end
        | _, _ => (s, userNotFound)
        end
    | _, _ => (s, serverError)
    end.

(** [router.post('/reject')] *)
Definition rejectRequest (now : N) (userId friendId : Json) (s : Store)
  : Store * Response :=
  if negb (isValid userId) || negb (isValid friendId) then (s, invalidUserIds)
  else
    match findById s userId, findById s friendId with
    | Some user, Some friend =>
        match user, friend with
        | Some user, Some friend =>
            if negb (includes (friendRequests (cur user)) friendId)
            then (s, NoSuchRequest)
            else
              let user :=
                friendRequests_assign user
                  (filter (λ id, canon id ≠ friendId)
                          (friendRequests (cur user))) in
              let friend :=
                notifications_push now friend
                  (username (cur user) +:+ " has rejected your friend request.") in
              match save s user with
              | None => (s, serverError)
              | Some s1 =>
                  match save s1 friend with
                  | None => (s1, serverError)
                  | Some s2 => (s2, mkResponse 200 "Friend request rejected.")
                  end
              end
        | _, _ => (s, userNotFound)
        end
    | _, _ => (s, serverError)
    end.

(** [router.post('/unfriend')] *)
Definition unfriend (now : N) (userId friendId : Json) (s : Store)
  : Store * Response :=
  if negb (isValid userId) || negb (isValid friendId) then (s, invalidUserIds)
  else
    match findById s userId, findById s friendId with
    | Some user, Some friend =>
        match user, friend with
        | Some user, Some friend =>
            let user :=
              friends_assign user
                (filter (λ id, canon id ≠ friendId) (friends (cur user))) in
            let friend :=
              friends_assign friend
                (filter (λ id, canon id ≠ userId) (friends (cur friend))) in
            let friend :=
              notifications_push now friend
                (username (cur user) +:+ " has unfriended you.") in
            match save s user with
            | None => (s, serverError)
            | Some s1 =>
                match save s1 friend with
                | None => (s1, serverError)
                | Some s2 => (s2, mkResponse 200 "Unfriended successfully.")
                end
            end
        | _, _ => (s, userNotFound)
        end
    | _, _ => (s, serverError)
    end.

(** A request to one of the four workflow routes, with the clock reading at
    the time it is served. *)
Inductive Op : Type :=
  | OpRequest (now : N) (userId friendId : Json)
  | OpAccept (now : N) (userId friendId : Json)
  | OpReject (now : N) (userId friendId : Json)
  | OpUnfriend (now : N) (userId friendId : Json).

Definition serve (s : Store) (o : Op) : Store * Response :=
  match o with
  | OpRequest now u f => sendRequest now u f s
  | OpAccept now u f => acceptRequest now u f s
  | OpReject now u f => rejectRequest now u f s
  | OpUnfriend now u f => unfriend now u f s
  end.

(** The collection after a sequence of requests served one after another. *)
Definition run (s : Store) (ops : list Op) : Store :=
  foldl (λ s o, (serve s o).1) s ops.

(** ** The recommendation route *)

(** A value of the [recommendations] object. *)
Module Candidate.
Record t := mk {
  username : string;
  commonInterests : nat;
  mutualFriends : nat
}.
End Candidate.

(** An element of [recommendationsArray]: [{ _id: id, ...data }]. *)
Module Recommendation.
Record t := mk {
  _id : ObjectId;
  username : string;
  commonInterests : nat;
  mutualFriends : nat
}.
End Recommendation.

(** The [recommendations] object.  Its keys are renderings of identifiers,
    and two identifiers with one rendering are equal ([toString_inj]): a key
    is recorded as the identifier it renders.  The keys are never array
    indices, so [Object.entries] lists them in the order in which they were
    first assigned. *)
Abbreviation Recs := (list (ObjectId * Candidate.t)).

(** [recommendations[id]] *)
Fixpoint rec_get (r : Recs) (id : ObjectId) : option Candidate.t :=
  match r with
  | [] => None
  | (k, v) :: r' => if decide (k = id) then Some v else rec_get r' id
  end.

(** [recommendations[id] = v] *)
Fixpoint rec_set (r : Recs) (id : ObjectId) (v : Candidate.t) : Recs :=
  match r with
  | [] => [(id, v)]
  | (k, w) :: r' =>
      if decide (k = id) then (k, v) :: r' else (k, w) :: rec_set r' id v
  end.

(** [data.mutualFriends += 1] *)
Definition incrMutual (c : Candidate.t) : Candidate.t :=
  Candidate.mk (Candidate.username c) (Candidate.commonInterests c)
               (Candidate.mutualFriends c + 1).

(** [recommendations[id].mutualFriends += 1] on a key that is present. *)
Fixpoint rec_incr (r : Recs) (id : ObjectId) : Recs :=
  match r with
  | [] => []
  | (k, w) :: r' =>
      if decide (k = id) then (k, incrMutual w) :: r' else (k, w) :: rec_incr r' id
  end.

(** [populate]: every reference of the array that resolves is replaced by
    its document, in place; references to no document are dropped. *)
Definition populate (s : Store) (ids : list ObjectId) : list (ObjectId * User) :=
  omap (λ id, (λ u, (id, u)) <$> s !! id) ids.

(** [User.find({ _id: { $ne: userId }, interests: { $in: ints } })], where
    [id] is the identifier the query casts [userId] to. *)
Definition findCommonInterest (s : Store) (id : ObjectId) (ints : list string)
  : list (ObjectId * User) :=
  filter (λ p, p.1 ≠ id ∧ Exists (λ i, i ∈ ints) (interests p.2))
         (map_to_list s).

(** [user.interests.filter(interest => potentialFriend.interests.includes(interest)).length] *)
Definition countCommon (user potentialFriend : User) : nat :=
  length (filter (λ interest, interest ∈ interests potentialFriend) (interests user)).

(** Step 1, the loop over [commonInterestUsers]. *)
Definition interestPass (user : User) (friendIds : list ObjectId)
    (commonInterestUsers : list (ObjectId * User)) (recommendations : Recs) : Recs :=
  foldl (λ recommendations potentialFriend,
           if includesString friendIds potentialFriend.1
              || bool_decide (is_Some (rec_get recommendations potentialFriend.1))
           then recommendations
           else rec_set recommendations potentialFriend.1
                  (Candidate.mk (username potentialFriend.2)
                                (countCommon user potentialFriend.2) 0))
        recommendations commonInterestUsers.

(** The body of the inner loop of step 2, for one [mutualFriend];
    [userId] is the segment of the URL. *)
Definition visitMutual (userId : string) (friendIds : list ObjectId)
    (recommendations : Recs) (mutualFriend : ObjectId * User) : Recs :=
  if bool_decide (toString mutualFriend.1 = userId)
     || includesString friendIds mutualFriend.1
  then recommendations
  else
    let recommendations :=
      if bool_decide (is_Some (rec_get recommendations mutualFriend.1))
      then recommendations
      else rec_set recommendations mutualFriend.1
             (Candidate.mk (username mutualFriend.2) 0 0) in
    rec_incr recommendations mutualFriend.1.

(** Step 2, the loop over [user.friends]; [friendDetails] is the document
    [populate] resolved for [friend], with its own [friends] populated. *)
Definition mutualPass (s : Store) (userId : string) (friendIds : list ObjectId)
    (userFriends : list (ObjectId * User)) (recommendations : Recs) : Recs :=
  foldl (λ recommendations friend,
           foldl (visitMutual userId friendIds) recommendations
                 (populate s (friends friend.2)))
        recommendations userFriends.

(** The comparator given to [sort]; [||] yields its right operand when the
    left one is [0]. *)
Definition compareFn (a b : Recommendation.t) : Z :=
  let d := (Z.of_nat (Recommendation.commonInterests b)
            - Z.of_nat (Recommendation.commonInterests a))%Z in
  if decide (d = 0%Z)
  then (Z.of_nat (Recommendation.mutualFriends b)
        - Z.of_nat (Recommendation.mutualFriends a))%Z
  else d.

(** [Array.prototype.sort(compareFn)] is a stable sort: [x] goes before [y]
    unless [compareFn x y > 0], and elements that compare equal keep their
    order.  Insertion from the right end computes that arrangement. *)
Fixpoint sort_insert (cmp : Recommendation.t → Recommendation.t → Z)
    (x : Recommendation.t) (l : list Recommendation.t) : list Recommendation.t :=
  match l with
  | [] => [x]
  | y :: l' =>
      if decide (cmp x y ≤ 0)%Z then x :: y :: l' else y :: sort_insert cmp x l'
  end.

Definition sort (cmp : Recommendation.t → Recommendation.t → Z)
    (l : list Recommendation.t) : list Recommendation.t :=
  foldr (sort_insert cmp) [] l.

(** [Object.entries(recommendations).map(([id, data]) => ({ _id: id, ...data }))] *)
Definition entries (recommendations : Recs) : list Recommendation.t :=
  (λ e, Recommendation.mk e.1 (Candidate.username e.2)
          (Candidate.commonInterests e.2) (Candidate.mutualFriends e.2))
  <$> recommendations.

(** The [recommendations] object when step 3 starts, for the segment
    [userId] of the URL, the identifier [id] it is cast to and the document
    [user] found for it. *)
Definition collect (s : Store) (userId : string) (id : ObjectId) (user : User)
  : Recs :=
  let userFriends := populate s (friends user) in
  let friendIds := userFriends.*1 in
  let commonInterestUsers := findCommonInterest s id (interests user) in
  let recommendations := interestPass user friendIds commonInterestUsers [] in
  mutualPass s userId friendIds userFriends recommendations.

(** [router.get('/:userId/recommendations')]: the error response, or the
    [recommendations] array of the [200] response. *)
Definition recommend (s : Store) (userId : string)
  : Response + list Recommendation.t :=
  if negb (isValid (JString userId)) then inl invalidUserId
  else
    match castObjectId (JString userId) with
    | None => inl serverError
    | Some id =>
        match s !! id with
        | None => inl userNotFound
        | Some user => inr (sort compareFn (entries (collect s userId id user)))
        end
    end.

(** ** The listing routes *)

(** The fields [.populate(path, 'username')] and [.select('username')]
    keep of a document: [_id] and [username]. *)
Definition selectUsername (docs : list (ObjectId * User))
  : list (ObjectId * string) :=
  (λ p, (p.1, username p.2)) <$> docs.

(** [router.get('/:userId/friendRequests')] *)
Definition listFriendRequests (s : Store) (userId : string)
  : Response + list (ObjectId * string) :=
  if negb (isValid (JString userId)) then inl invalidUserId
  else
    match castObjectId (JString userId) with
    | None => inl serverError
    | Some id =>
        match s !! id with
        | None => inl userNotFound
        | Some user => inr (selectUsername (populate s (friendRequests user)))
        end
    end.

(** [router.get('/:userId/friends')] *)
Definition listFriends (s : Store) (userId : string)
  : Response + list (ObjectId * string) :=
  if negb (isValid (JString userId)) then inl invalidUserId
  else
    match castObjectId (JString userId) with
    | None => inl serverError
    | Some id =>
        match s !! id with
        | None => inl userNotFound
        | Some user => inr (selectUsername (populate s (friends user)))
        end
    end.

(** [router.get('/:userId/notifications')] *)
Definition listNotifications (s : Store) (userId : string)
  : Response + list Notification :=
  if negb (isValid (JString userId)) then inl invalidUserId
  else
    match castObjectId (JString userId) with
    | None => inl serverError
    | Some id =>
        match s !! id with
        | None => inl userNotFound
        | Some user => inr (notifications user)
        end
    end.

(** [router.get('/:userId/users')]: [User.find({ _id: { $ne: userId } })],
    with no lookup of [userId] itself. *)
Definition listUsers (s : Store) (userId : string)
  : Response + list (ObjectId * string) :=
  if negb (isValid (JString userId)) then inl invalidUserId
  else
    match castObjectId (JString userId) with
    | None => inl serverError
    | Some id => inr (selectUsername (filter (λ p, p.1 ≠ id) (map_to_list s)))
    end.

(** ** The relations the specification speaks of *)

(** [A.friends], [A.pendingIncomingRequests] and [A.notifications] of the
    user with identifier [a]; empty when there is no such user. *)
Definition friendsOf (s : Store) (a : ObjectId) : list ObjectId :=
  from_option friends [] (s !! a).

Definition pendingOf (s : Store) (a : ObjectId) : list ObjectId :=
  from_option friendRequests [] (s !! a).

Definition notificationsOf (s : Store) (a : ObjectId) : list Notification :=
  from_option notifications [] (s !! a).

(** Symmetry of the [friends] relation. *)
Definition symmetric (s : Store) : Prop :=
  ∀ a b, a ≠ b → (a ∈ friendsOf s b ↔ b ∈ friendsOf s a).

(** [symmetric] as a check of every stored [friends] entry. *)
Definition symmetric_check (s : Store) : Prop :=
  map_Forall (λ a U, Forall (λ b, a ≠ b → a ∈ friendsOf s b) (friends U)) s.

(** The counters recorded for a key of the [recommendations] object, [0]
    when the key is absent. *)
Definition ci_of (r : Recs) (k : ObjectId) : nat :=
  from_option Candidate.commonInterests 0 (rec_get r k).

Definition mf_of (r : Recs) (k : ObjectId) : nat :=
  from_option Candidate.mutualFriends 0 (rec_get r k).

(** The number of entries of [l] equal to [k]. *)
Definition occurrences (k : ObjectId) (l : list ObjectId) : nat :=
  length (filter (λ j, j = k) l).

(** The paths from a user to [k] through an entry of the user's [friends]
    and an entry of that friend's [friends]. *)
Definition mutualPaths (s : Store) (U : User) (k : ObjectId) : nat :=
  sum_list_with (λ f, occurrences k (friendsOf s f)) (friends U).

(** The order of the output: [a] may stand before [b]. *)
Definition ranks_before (a b : Recommendation.t) : Prop :=
  Recommendation.commonInterests b < Recommendation.commonInterests a ∨
  (Recommendation.commonInterests a = Recommendation.commonInterests b ∧
   Recommendation.mutualFriends b ≤ Recommendation.mutualFriends a).

(** The entries with given values of the two counters. *)
Definition same_rank (c m : nat) (e : Recommendation.t) : Prop :=
  Recommendation.commonInterests e = c ∧ Recommendation.mutualFriends e = m.

(** The fields of a document that no workflow route writes. *)
Definition profile (u : User) : string * string * list string :=
  (username u, password u, interests u).

(** No user is in their own [friends] or pending requests. *)
Definition no_self_pairs (s : Store) : Prop :=
  ∀ a, (a ∉ friendsOf s a) ∧ (a ∉ pendingOf s a).

Definition no_self_pairs_check (s : Store) : Prop :=
  map_Forall (λ a U, (a ∉ friends U) ∧ (a ∉ friendRequests U)) s.

(** No [friendRequests] array holds an identifier twice. *)
Definition pending_distinct (s : Store) : Prop :=
  map_Forall (λ _ U, NoDup (friendRequests U)) s.

(** The two values a workflow request names its users by. *)
Definition op_userId (o : Op) : Json :=
  match o with
  | OpRequest _ u _ | OpAccept _ u _ | OpReject _ u _ | OpUnfriend _ u _ => u
  end.

Definition op_friendId (o : Op) : Json :=
  match o with
  | OpRequest _ _ f | OpAccept _ _ f | OpReject _ _ f | OpUnfriend _ _ f => f
  end.

(** The users a workflow request names: the identifiers its two values are
    cast to. *)
Definition op_users (o : Op) : list ObjectId :=
  omap castObjectId [op_userId o; op_friendId o].

(** Two requests that name no user in common. *)
Definition disjoint_ops (o1 o2 : Op) : Prop :=
  ∀ a, a ∈ op_users o1 → a ∉ op_users o2.

(** A request that spells canonically each user it names. *)
Definition canonical_op (o : Op) : Prop :=
  wellSpelled (op_userId o) ∧ wellSpelled (op_friendId o).

(** ** Sample collections *)

(** Two registered users with no relationship yet. *)
Definition alice : User := mkUser "alice" "$2a$10$a" [] [] ["x"; "y"]%string [] 0.
Definition bob : User := mkUser "bob" "$2a$10$b" [] [] ["x"]%string [] 0.
Definition two_users : Store := <[1%N := alice]> (<[2%N := bob]> ∅).

(** The identifiers of the two, as requests spell them. *)
Definition id1 : string := "000000000000000000000001".
Definition id2 : string := "000000000000000000000002".

(** Each of the two sends a request to the other, then the first request is
    accepted. *)
Definition crossed_requests : list Op :=
  [OpRequest 10 (JString id1) (JString id2);
   OpRequest 11 (JString id2) (JString id1);
   OpAccept 12 (JString id2) (JString id1)].


(** [bob] once [alice]'s request is pending. *)
Definition bob_asked : User :=
  mkUser "bob" "$2a$10$b" [] [1%N] ["x"%string]
         [mkNotification "alice has sent you a friend request." 10] 1.

(** [alice] once [bob]'s request is pending. *)
Definition alice_asked : User :=
  mkUser "alice" "$2a$10$a" [] [2%N] ["x"; "y"]%string
         [mkNotification "bob has sent you a friend request." 10] 1.

(** Two users whose identifiers have a letter among their digits, each in
    the other's [friends]; and the two spellings of each identifier. *)
Definition ten : User := mkUser "ten" "$2a$10$t" [11%N] [] [] [] 0.
Definition eleven : User := mkUser "eleven" "$2a$10$e" [10%N] [] [] [] 0.
Definition ten_eleven : Store := <[10%N := ten]> (<[11%N := eleven]> ∅).

Definition id10 : string := "00000000000000000000000a".
Definition id11 : string := "00000000000000000000000b".
Definition ID10 : string := "00000000000000000000000A".
Definition ID11 : string := "00000000000000000000000B".

(** The same two users with no relationship. *)
Definition ten_eleven_strangers : Store :=
  <[10%N := mkUser "ten" "$2a$10$t" [] [] [] [] 0]>
  (<[11%N := mkUser "eleven" "$2a$10$e" [] [] [] [] 0]> ∅).

(** A user with three friends who are all friends of a fifth user; the
    fifth user shares two interests with the first. *)
Definition hub_user : User :=
  mkUser "u" "$2a$10$u" [2; 3; 4]%N [] ["x"; "y"; "z"]%string [] 0.

Definition hub : Store :=
  <[1%N := hub_user]>
  (<[2%N := mkUser "f2" "$2a$10$2" [1; 5]%N [] [] [] 0]>
  (<[3%N := mkUser "f3" "$2a$10$3" [1; 5]%N [] [] [] 0]>
  (<[4%N := mkUser "f4" "$2a$10$4" [1; 5]%N [] [] [] 0]>
  (<[5%N := mkUser "c" "$2a$10$c" [2; 3; 4]%N [] ["x"; "y"; "w"]%string [] 0]>
   ∅)))).

(** A user registered with the same interest listed twice, and another user
    with that interest. *)
Definition repeated_user : User :=
  mkUser "u" "$2a$10$u" [] [] ["x"; "x"]%string [] 0.

Definition repeated_candidate : User :=
  mkUser "c" "$2a$10$c" [] [] ["x"]%string [] 0.

Definition repeated_interest : Store :=
  <[1%N := repeated_user]> (<[2%N := repeated_candidate]> ∅).

(** Friends recorded twice on both sides, as the crossed requests leave
    them once both are accepted, and a friend of the second user. *)
Definition repeated_friend : Store :=
  <[1%N := mkUser "u" "$2a$10$u" [2; 2]%N [] [] [] 0]>
  (<[2%N := mkUser "f" "$2a$10$f" [1; 1; 3]%N [] [] [] 0]>
  (<[3%N := mkUser "c" "$2a$10$c" [2]%N [] [] [] 0]> ∅)).

(** A friendship recorded on one side only. *)
Definition one_sided : Store :=
  <[1%N := mkUser "u" "$2a$10$u" [2]%N [] [] [] 0]>
  (<[2%N := mkUser "f" "$2a$10$f" [1; 3]%N [] [] [] 0]>
  (<[3%N := mkUser "c" "$2a$10$c" [] [] [] [] 0]> ∅)).

(** A user with one friend; two friends of that friend and two strangers
    share interests with the user. *)
Definition ranking_user : User :=
  mkUser "u" "$2a$10$u" [2]%N [] ["x"; "y"]%string [] 0.

Definition ranking : Store :=
  <[1%N := ranking_user]>
  (<[2%N := mkUser "f" "$2a$10$f" [1; 3; 4]%N [] [] [] 0]>
  (<[3%N := mkUser "c3" "$2a$10$3" [2]%N [] ["x"]%string [] 0]>
  (<[4%N := mkUser "c4" "$2a$10$4" [2]%N [] ["x"; "y"]%string [] 0]>
  (<[5%N := mkUser "c5" "$2a$10$5" [] [] ["y"]%string [] 0]>
  (<[6%N := mkUser "c6" "$2a$10$6" [] [] ["y"; "x"]%string [] 0]>
   ∅))))).

Definition ranking_output : list Recommendation.t :=
  [Recommendation.mk 4 "c4" 2 1; Recommendation.mk 6 "c6" 2 0;
   Recommendation.mk 3 "c3" 1 1; Recommendation.mk 5 "c5" 1 0].

Definition hub_output : list Recommendation.t := [Recommendation.mk 5 "c" 2 3].


(** A user with no interests and no friends, and another user. *)
Definition loner_user : User := mkUser "l" "$2a$10$l" [] [] [] [] 0.

Definition loner : Store :=
  <[1%N := loner_user]>
  (<[2%N := mkUser "o" "$2a$10$o" [] [] ["x"]%string [] 0]> ∅).

(** ** Proof automation *)

(** Unfold the operations on tracked documents. *)
Ltac doc_unfold :=
  unfold friendRequests_assign, friends_assign, notifications_push,
    friends_push, friendRequests_push.

(** No handler assigns the [notifications] path. *)
Ltac appends_only := doc_unfold; repeat case_decide; reflexivity.

(** The [_id] of a handler's document. *)
Ltac doc_id := doc_unfold; repeat case_decide; done.

(** The way into a handler: the validation, the casts and the two lookups,
    each with its early answer. *)
Ltac enter_route ru rf s :=
  unfold findById;
  destruct (isValid ru); [|done]; destruct (isValid rf); [|done];
  cbn [negb orb];
  try (destruct (strictEq ru rf); [done|]);
  destruct (castObjectId ru) as [u|] eqn:Hcu; [|done];
  destruct (castObjectId rf) as [f|] eqn:Hcf; [|done];
  cbn [fmap option_fmap option_map];
  destruct (s !! u) as [U|] eqn:HU; [|done];
  destruct (s !! f) as [F|] eqn:HF; [|done];
  cbn [fmap option_fmap option_map cur].

(** A handler that answers without having written. *)
Ltac refused :=
  left; cbn [fst snd]; split_and!;
  [ done
  | by cbn
  | cbn; first [by intros [=] | by eauto]
  | let Hx1 := fresh in let Hx2 := fresh in
    intros ? ? ? ? Hx1 Hx2 ? ?;
    first [ by (simplify_eq;
                first [ done | by left | by (right; left)
                      | by (right; right; left) | by (right; right; right) ])
          | by (unfold isValid, castObjectId in *; repeat case_match; congruence) ] ].

#[global] Arguments canon : simpl never.
#[global] Arguments toString : simpl never.
#[global] Arguments castObjectId : simpl never.
#[global] Arguments isValid : simpl never.

(** * Identifiers and their spellings *)

Lemma to_N_zeros n s :
  HexString.Raw.to_N (Nat.iter n (String.append "0") s) 0 = HexString.Raw.to_N s 0.
Proof. induction n as [|n IH]; [done|]. exact IH. Qed.

(** Reading the rendering of an identifier gives the identifier back. *)
Lemma toString_to_N (id : ObjectId) : HexString.Raw.to_N (toString id) 0 = id.
Proof.
  unfold toString. rewrite to_N_zeros. destruct id as [|p]; [done|].
  by rewrite HexString.Raw.to_N_of_pos.
Qed.

Lemma toString_inj (a b : ObjectId) : toString a = toString b → a = b.
Proof.
  intros H. by rewrite <- (toString_to_N a), <- (toString_to_N b), H.
Qed.

Lemma canon_inj (a b : ObjectId) : canon a = canon b → a = b.
Proof. intros [= H]. by apply toString_inj. Qed.

(** A value that is cast to [a] and is the canonical spelling of [e] spells
    [a] canonically. *)
Lemma castObjectId_spells (x : Json) (a e : ObjectId) :
  castObjectId x = Some a → x = canon e → e = a.
Proof.
  intros Hc ->. unfold castObjectId, canon in Hc.
  destruct (hex24 _); [|done]. rewrite toString_to_N in Hc. congruence.
Qed.

Lemma twelveBytes_cast (a : ObjectId) :
  twelveBytes a → castObjectId (canon a) = Some a.
Proof.
  unfold twelveBytes, castObjectId, canon. intros ->. by rewrite toString_to_N.
Qed.

Lemma castObjectId_twelveBytes (a : ObjectId) :
  castObjectId (canon a) = Some a → twelveBytes a.
Proof.
  unfold twelveBytes, castObjectId, canon. by destruct (hex24 _).
Qed.

Lemma castObjectId_isValid (x : Json) (a : ObjectId) :
  castObjectId x = Some a → isValid x = true.
Proof.
  unfold castObjectId, isValid. destruct x as [t|z]; [|done].
  by destruct (hex24 t).
Qed.

(** Two values that are cast to different identifiers are different. *)
Lemma castObjectId_ne (x y : Json) (a b : ObjectId) :
  castObjectId x = Some a → castObjectId y = Some b → a ≠ b → x ≠ y.
Proof. intros Hx Hy Hab ->. congruence. Qed.

Lemma strictEq_false (x y : Json) : x ≠ y → strictEq x y = false.
Proof. intros. unfold strictEq. by apply bool_decide_eq_false_2. Qed.

Lemma strictEq_true (x y : Json) : strictEq x y = true → x = y.
Proof. unfold strictEq. by intros ?%bool_decide_eq_true_1. Qed.

Lemma wellSpelled_cast (x : Json) (a : ObjectId) :
  wellSpelled x → castObjectId x = Some a → x = canon a.
Proof. unfold wellSpelled. intros H Hc. by rewrite Hc in H. Qed.

Lemma wellSpelled_canon (a : ObjectId) : wellSpelled (canon a).
Proof.
  unfold wellSpelled. destruct (castObjectId (canon a)) as [b|] eqn:E; [|done].
  by rewrite (castObjectId_spells _ _ _ E eq_refl).
Qed.

(** *** [includes] and the filters on the strings of the request *)

Lemma includes_true (l : list ObjectId) (x : Json) :
  includes l x = true ↔ ∃ e, e ∈ l ∧ x = canon e.
Proof.
  unfold includes. rewrite bool_decide_eq_true, Exists_exists. done.
Qed.

Lemma includes_false (l : list ObjectId) (x : Json) :
  includes l x = false ↔ ∀ e, e ∈ l → x ≠ canon e.
Proof.
  rewrite <- not_true_iff_false, includes_true. naive_solver.
Qed.

(** On a canonical spelling, [includes] is membership of the identifier. *)
Lemma includes_canon (l : list ObjectId) (a : ObjectId) :
  includes l (canon a) = bool_decide (a ∈ l).
Proof.
  destruct (decide (a ∈ l)) as [Hin|Hin].
  - rewrite (bool_decide_eq_true_2 _ Hin). apply includes_true. eauto.
  - rewrite (bool_decide_eq_false_2 _ Hin). apply includes_false.
    intros e He Heq%canon_inj. by subst.
Qed.

(** [includes] finds only the canonical spelling of what the value is cast
    to. *)
Lemma includes_cast (l : list ObjectId) (x : Json) (a : ObjectId) :
  castObjectId x = Some a → includes l x = true → x = canon a ∧ a ∈ l.
Proof.
  intros Hc (e & He & Hx)%includes_true.
  by rewrite <- (castObjectId_spells _ _ _ Hc Hx).
Qed.

Lemma includes_wellSpelled (l : list ObjectId) (x : Json) (a : ObjectId) :
  wellSpelled x → castObjectId x = Some a → includes l x = bool_decide (a ∈ l).
Proof.
  intros Hw Hc. rewrite (wellSpelled_cast _ _ Hw Hc). apply includes_canon.
Qed.

Lemma filter_canon (l : list ObjectId) (a : ObjectId) :
  filter (λ id, canon id ≠ canon a) l = filter (λ id, id ≠ a) l.
Proof.
  apply list_filter_iff. intros id. split.
  - intros H ->. done.
  - intros H Heq%canon_inj. done.
Qed.

Lemma filter_all {A} (P : A → Prop) `{∀ x, Decision (P x)} (l : list A) :
  (∀ x, x ∈ l → P x) → filter P l = l.
Proof.
  induction l as [|x l IH]; intros Hl; [done|].
  rewrite filter_cons_True by (apply Hl; left).
  rewrite IH; [done|]. intros y Hy. apply Hl. by right.
Qed.

Lemma filter_none {A} (P : A → Prop) `{∀ x, Decision (P x)} (l : list A) :
  (∀ x, x ∈ l → ¬ P x) → filter P l = [].
Proof.
  induction l as [|x l IH]; intros Hl; [done|].
  rewrite filter_cons_False by (apply Hl; left).
  apply IH. intros y Hy. apply Hl. by right.
Qed.

(** The filter of a route removes nothing when [includes] finds nothing. *)
Lemma filter_spelling_id (l : list ObjectId) (x : Json) :
  includes l x = false → filter (λ id, canon id ≠ x) l = l.
Proof.
  rewrite includes_false. intros H. apply filter_all.
  intros e He Heq. by apply (H e He).
Qed.

Lemma filter_spelling_changes (l : list ObjectId) (x : Json) :
  includes l x = true → filter (λ id, canon id ≠ x) l ≠ l.
Proof.
  intros (e & He & ->)%includes_true Heq. rewrite <- Heq in He.
  apply list_elem_of_filter in He. naive_solver.
Qed.

Lemma filter_spelling_includes (l : list ObjectId) (x : Json) :
  filter (λ id, canon id ≠ x) l ≠ l → includes l x = true.
Proof.
  intros Hn. destruct (includes l x) eqn:E; [done|].
  by apply filter_spelling_id in E.
Qed.

(** A spelling that is not canonical matches no element. *)
Lemma includes_misspelled (l : list ObjectId) (x : Json) (a : ObjectId) :
  castObjectId x = Some a → x ≠ canon a → includes l x = false.
Proof.
  intros Hc Hx. destruct (includes l x) eqn:E; [|done].
  by destruct (includes_cast _ _ _ Hc E).
Qed.

Lemma filter_ne_changes (l : list ObjectId) x :
  x ∈ l → filter (λ id, id ≠ x) l ≠ l.
Proof.
  intros Hx Heq. rewrite <- Heq in Hx.
  apply list_elem_of_filter in Hx. naive_solver.
Qed.

Lemma filter_ne_id (l : list ObjectId) x :
  x ∉ l → filter (λ id, id ≠ x) l = l.
Proof. intros Hx. apply filter_all. intros y Hy ->. done. Qed.

Lemma filter_ne_idemp (l : list ObjectId) x :
  filter (λ id, id ≠ x) (filter (λ id, id ≠ x) l) = filter (λ id, id ≠ x) l.
Proof. rewrite list_filter_filter. apply list_filter_iff. naive_solver. Qed.

Lemma filter_ne_elem (l : list ObjectId) x :
  filter (λ id, id ≠ x) l ≠ l → x ∈ l.
Proof.
  intros Hn. destruct (decide (x ∈ l)) as [|Hx]; [done|].
  by apply filter_ne_id in Hx.
Qed.

Lemma filter_ne_snoc (l : list ObjectId) x :
  x ∉ l → filter (λ id, id ≠ x) (l ++ [x]) = l.
Proof.
  intros Hx. rewrite filter_app, filter_ne_id by done.
  rewrite filter_cons_False by naive_solver. by rewrite app_nil_r.
Qed.

(** * Properties of the workflow routes *)

(** What a successful [save] leaves in the collection. *)
Lemma save_Some (s s' : Store) d :
  save s d = Some s' →
  (unmodified d = true ∧ s' = s) ∨
  (unmodified d = false ∧ ∃ db, s !! _id d = Some db ∧ s' = <[_id d := commit d db]> s).
Proof.
  unfold save. destruct (unmodified d); [intros [= <-]; by left|].
  destruct (s !! _id d) as [db|]; [|done].
  destruct (_ && _); [done|]. intros [= <-]. right. eauto.
Qed.

Lemma save_other (s s' : Store) d j :
  save s d = Some s' → j ≠ _id d → s' !! j = s !! j.
Proof.
  intros [[_ ->]|[_ (db & _ & ->)]]%save_Some Hj; [done|].
  by rewrite lookup_insert_ne.
Qed.

(** The three arrays of every user after a successful [save]. *)
Lemma save_friendsOf (s s' : Store) d a :
  save s d = Some s' →
  friendsOf s' a =
    if decide (a = _id d)
    then apply_atomic (at_friends d) (friendsOf s a) (friends (cur d))
    else friendsOf s a.
Proof.
  intros [[Hc ->]|[_ (db & Hdb & ->)]]%save_Some; unfold friendsOf.
  - case_decide; [|done]. unfold unmodified in Hc.
    by destruct (at_friends d).
  - case_decide as Ha.
    + subst a. by rewrite lookup_insert_eq, Hdb.
    + by rewrite lookup_insert_ne.
Qed.

Lemma save_pendingOf (s s' : Store) d a :
  save s d = Some s' →
  pendingOf s' a =
    if decide (a = _id d)
    then apply_atomic (at_friendRequests d) (pendingOf s a) (friendRequests (cur d))
    else pendingOf s a.
Proof.
  intros [[Hc ->]|[_ (db & Hdb & ->)]]%save_Some; unfold pendingOf.
  - case_decide; [|done]. unfold unmodified in Hc.
    destruct (at_friends d), (at_friendRequests d); done.
  - case_decide as Ha.
    + subst a. by rewrite lookup_insert_eq, Hdb.
    + by rewrite lookup_insert_ne.
Qed.

Lemma save_notificationsOf (s s' : Store) d a :
  save s d = Some s' →
  notificationsOf s' a =
    if decide (a = _id d)
    then apply_atomic (at_notifications d) (notificationsOf s a) (notifications (cur d))
    else notificationsOf s a.
Proof.
  intros [[Hc ->]|[_ (db & Hdb & ->)]]%save_Some; unfold notificationsOf.
  - case_decide; [|done]. unfold unmodified in Hc.
    destruct (at_friends d), (at_friendRequests d), (at_notifications d); done.
  - case_decide as Ha.
    + subst a. by rewrite lookup_insert_eq, Hdb.
    + by rewrite lookup_insert_ne.
Qed.

(** A [save] keeps every user in the collection. *)
Lemma save_is_Some (s s' : Store) d a :
  save s d = Some s' → is_Some (s !! a) → is_Some (s' !! a).
Proof.
  intros [[_ ->]|[_ (db & Hdb & ->)]]%save_Some Ha; [done|].
  rewrite lookup_insert. case_decide; eauto.
Qed.

(** A [save] that only pushes cannot fail on a stored document. *)
Lemma save_unversioned (s : Store) d :
  versioned d = false → is_Some (s !! _id d) → is_Some (save s d).
Proof.
  intros Hv [db Hdb]. unfold save. destruct (unmodified d); [eauto|].
  rewrite Hdb, Hv. simpl. eauto.
Qed.

(** A versioned [save] of a copy that still has the stored [__v]. *)
Lemma save_current (s : Store) d db :
  s !! _id d = Some db → version db = version (cur d) → is_Some (save s d).
Proof.
  intros Hdb Hv. unfold save. destruct (unmodified d); [eauto|].
  rewrite Hdb, bool_decide_eq_true_2 by done. rewrite andb_false_r. eauto.
Qed.

Lemma save_notifications_prefix (s s' : Store) d a :
  save s d = Some s' → is_assigned (at_notifications d) = false →
  notificationsOf s a `prefix_of` notificationsOf s' a.
Proof.
  intros Hs Hd. rewrite (save_notificationsOf _ _ _ _ Hs).
  case_decide; [|done].
  destruct (at_notifications d); simpl; [done| |done].
  by apply prefix_app_r.
Qed.

Lemma two_saves_notifications_prefix (s : Store) d1 d2 (r1 r2 r3 : Response) a :
  is_assigned (at_notifications d1) = false →
  is_assigned (at_notifications d2) = false →
  notificationsOf s a `prefix_of`
    notificationsOf
      (match save s d1 with
       | None => (s, r1)
       | Some s1 =>
           match save s1 d2 with
           | None => (s1, r2)
           | Some s2 => (s2, r3)
           end
       end).1 a.
Proof.
  intros H1 H2. destruct (save s d1) as [s1|] eqn:E1; [|done].
  pose proof (save_notifications_prefix _ _ _ a E1 H1) as P1.
  destruct (save s1 d2) as [s2|] eqn:E2; [|done].
  pose proof (save_notifications_prefix _ _ _ a E2 H2) as P2.
  simpl. by etrans.
Qed.

(** C9. Every workflow request leaves each user's notifications as a prefix
    of that user's notifications afterwards: entries are appended, never
    changed or removed. *)
Theorem notifications_append_only (s : Store) (o : Op) (a : ObjectId) :
  notificationsOf s a `prefix_of` notificationsOf (serve s o).1 a.
Proof.
  destruct o as [now ru rf|now ru rf|now ru rf|now ru rf]; simpl.
  - unfold sendRequest, findById.
    destruct (_ || _); [done|]. destruct (strictEq _ _); [done|].
    destruct (castObjectId ru) as [u|] eqn:Hcu; [|done].
    destruct (castObjectId rf) as [f|] eqn:Hcf; [|done].
    cbn [fmap option_fmap option_map].
    destruct (s !! u) as [U|]; [|done]. destruct (s !! f) as [F|]; [|done].
    cbn [fmap option_fmap option_map].
    destruct (_ || _); [done|]. destruct (includes _ _); [done|].
    unfold friendRequests_push. rewrite Hcu. cbn [fmap option_fmap option_map].
    destruct (save s _) as [s1|] eqn:E1; [|done]. simpl.
    apply (save_notifications_prefix _ _ _ a E1). reflexivity.
  - unfold acceptRequest, findById.
    destruct (_ || _); [done|].
    destruct (castObjectId ru) as [u|] eqn:Hcu; [|done].
    destruct (castObjectId rf) as [f|] eqn:Hcf; [|done].
    cbn [fmap option_fmap option_map].
    destruct (s !! u) as [U|]; [|done]. destruct (s !! f) as [F|]; [|done].
    cbn [fmap option_fmap option_map].
    destruct (negb _); [done|].
    unfold friends_push. rewrite Hcu, Hcf. cbn [fmap option_fmap option_map].
    apply two_saves_notifications_prefix; appends_only.
  - unfold rejectRequest, findById.
    destruct (_ || _); [done|].
    destruct (castObjectId ru) as [u|] eqn:Hcu; [|done].
    destruct (castObjectId rf) as [f|] eqn:Hcf; [|done].
    cbn [fmap option_fmap option_map].
    destruct (s !! u) as [U|]; [|done]. destruct (s !! f) as [F|]; [|done].
    cbn [fmap option_fmap option_map].
    destruct (negb _); [done|].
    apply two_saves_notifications_prefix; appends_only.
  - unfold unfriend, findById.
    destruct (_ || _); [done|].
    destruct (castObjectId ru) as [u|] eqn:Hcu; [|done].
    destruct (castObjectId rf) as [f|] eqn:Hcf; [|done].
    cbn [fmap option_fmap option_map].
    destruct (s !! u) as [U|]; [|done]. destruct (s !! f) as [F|]; [|done].
    cbn [fmap option_fmap option_map].
    apply two_saves_notifications_prefix; appends_only.
Qed.

(** *** The arrays of a user *)

Lemma friendsOf_lookup (s : Store) a U : s !! a = Some U → friendsOf s a = friends U.
Proof. unfold friendsOf. by intros ->. Qed.

Lemma pendingOf_lookup (s : Store) a U :
  s !! a = Some U → pendingOf s a = friendRequests U.
Proof. unfold pendingOf. by intros ->. Qed.

Lemma notificationsOf_lookup (s : Store) a U :
  s !! a = Some U → notificationsOf s a = notifications U.
Proof. unfold notificationsOf. by intros ->. Qed.

Lemma friendsOf_insert (s : Store) f V c :
  friendsOf (<[f := V]> s) c = if decide (c = f) then friends V else friendsOf s c.
Proof.
  unfold friendsOf. rewrite lookup_insert.
  by repeat destruct (decide _); simplify_eq.
Qed.

Lemma pendingOf_insert (s : Store) f V c :
  pendingOf (<[f := V]> s) c
  = if decide (c = f) then friendRequests V else pendingOf s c.
Proof.
  unfold pendingOf. rewrite lookup_insert.
  by repeat destruct (decide _); simplify_eq.
Qed.

Lemma notificationsOf_insert (s : Store) f V c :
  notificationsOf (<[f := V]> s) c
  = if decide (c = f) then notifications V else notificationsOf s c.
Proof.
  unfold notificationsOf. rewrite lookup_insert.
  by repeat destruct (decide _); simplify_eq.
Qed.

(** *** What each route writes *)

(** [sendRequest]: either nothing is written and the answer is not 200 (it
    is 500 only for a value that is not cast), or the answer is 200 and the
    document of the user [friendId] is cast to gets one request and one
    notification appended.  The two values may be cast to the same user. *)
Lemma sendRequest_effect now ru rf (s : Store) :
  ((sendRequest now ru rf s).1 = s ∧ status (sendRequest now ru rf s).2 ≠ 200 ∧
   (status (sendRequest now ru rf s).2 = 500 →
    isValid ru = true ∧ isValid rf = true ∧
    (castObjectId ru = None ∨ castObjectId rf = None)) ∧
   (∀ u f U F, castObjectId ru = Some u → castObjectId rf = Some f →
      s !! u = Some U → s !! f = Some F →
      ru = rf ∨ includes (friends U) rf = true ∨ includes (friends F) ru = true ∨
      includes (friendRequests F) ru = true)) ∨
  (∃ u f U F, castObjectId ru = Some u ∧ castObjectId rf = Some f ∧ ru ≠ rf ∧
     s !! u = Some U ∧ s !! f = Some F ∧
     includes (friends U) rf = false ∧ includes (friends F) ru = false ∧
     includes (friendRequests F) ru = false ∧
     sendRequest now ru rf s =
       (<[f := mkUser (username F) (password F) (friends F)
                 (friendRequests F ++ [u]) (interests F)
                 (notifications F ++
                    [mkNotification (username U +:+ " has sent you a friend request.") now])
                 (version F + 1)%N]> s,
        mkResponse 200 "Friend request sent")).
Proof.
  unfold sendRequest, findById.
  destruct (isValid ru) eqn:Hvu; [|refused].
  destruct (isValid rf) eqn:Hvf; [|refused]. cbn [negb orb].
  destruct (strictEq ru rf) eqn:Heq.
  { apply strictEq_true in Heq. refused. }
  destruct (castObjectId ru) as [u|] eqn:Hcu; [|refused].
  destruct (castObjectId rf) as [f|] eqn:Hcf; [|refused].
  cbn [fmap option_fmap option_map].
  destruct (s !! u) as [U|] eqn:HU; [|refused].
  destruct (s !! f) as [F|] eqn:HF; [|refused].
  cbn [fmap option_fmap option_map cur].
  destruct (includes (friends U) rf) eqn:H1; [refused|].
  destruct (includes (friends F) ru) eqn:H2; [refused|].
  destruct (includes (friendRequests F) ru) eqn:H3; [refused|].
  cbn [orb]. unfold friendRequests_push. rewrite Hcu.
  cbn [fmap option_fmap option_map]. unfold save. cbn. rewrite HF. cbn.
  right. exists u, f, U, F. split_and!; try done.
  intros ->. unfold strictEq in Heq. by rewrite bool_decide_eq_true_2 in Heq.
Qed.

(** The arrays after a [sendRequest] that is answered with 200. *)
Lemma sendRequest_arrays now ru rf (s : Store) :
  status (sendRequest now ru rf s).2 = 200 →
  ∃ u f U F, castObjectId ru = Some u ∧ castObjectId rf = Some f ∧ ru ≠ rf ∧
    s !! u = Some U ∧ s !! f = Some F ∧
    includes (friends U) rf = false ∧ includes (friends F) ru = false ∧
    includes (friendRequests F) ru = false ∧
    (∀ j, j ≠ f → (sendRequest now ru rf s).1 !! j = s !! j) ∧
    ∀ c,
      friendsOf (sendRequest now ru rf s).1 c = friendsOf s c ∧
      pendingOf (sendRequest now ru rf s).1 c
        = pendingOf s c ++ (if decide (c = f) then [u] else []) ∧
      notificationsOf (sendRequest now ru rf s).1 c
        = notificationsOf s c ++
          (if decide (c = f)
           then [mkNotification (username U +:+ " has sent you a friend request.") now]
           else []).
Proof.
  intros Hst.
  destruct (sendRequest_effect now ru rf s)
    as [(_ & H & _)|(u & f & U & F & Hcu & Hcf & Hne & HU & HF & H1 & H2 & H3 & ->)];
    [done|].
  exists u, f, U, F. split_and!; try done.
  - intros j Hj. cbn. by rewrite lookup_insert_ne.
  - intros c. cbn [fst].
    rewrite friendsOf_insert, pendingOf_insert, notificationsOf_insert.
    destruct (decide (c = f)) as [->|]; cbn.
    + by rewrite (friendsOf_lookup _ _ _ HF), (pendingOf_lookup _ _ _ HF),
        (notificationsOf_lookup _ _ _ HF).
    + by rewrite !app_nil_r.
Qed.

(** [acceptRequest]: either nothing is written and the answer is not 200,
    or the answer is 200: then [friendId] is the canonical spelling of a
    user whose request was pending, each of the two is appended to the
    other's [friends], the request is filtered out and the requester is
    notified.  The two values may be cast to the same user. *)
Lemma acceptRequest_effect now ru rf (s : Store) :
  ((acceptRequest now ru rf s).1 = s ∧ status (acceptRequest now ru rf s).2 ≠ 200 ∧
   (status (acceptRequest now ru rf s).2 = 500 →
    isValid ru = true ∧ isValid rf = true ∧
    (castObjectId ru = None ∨ castObjectId rf = None)) ∧
   (∀ u f U F, castObjectId ru = Some u → castObjectId rf = Some f →
      s !! u = Some U → s !! f = Some F →
      includes (friendRequests U) rf = false)) ∨
  ((acceptRequest now ru rf s).2 = mkResponse 200 "Friend request accepted." ∧
   ∃ u f U F, castObjectId ru = Some u ∧ castObjectId rf = Some f ∧ rf = canon f ∧
     s !! u = Some U ∧ s !! f = Some F ∧ f ∈ friendRequests U ∧
     ∀ c,
       friendsOf (acceptRequest now ru rf s).1 c
         = (friendsOf s c ++ (if decide (c = u) then [f] else []))
           ++ (if decide (c = f) then [u] else []) ∧
       pendingOf (acceptRequest now ru rf s).1 c
         = (if decide (c = u) then filter (λ id, id ≠ f) (pendingOf s c)
            else pendingOf s c) ∧
       notificationsOf (acceptRequest now ru rf s).1 c
         = notificationsOf s c ++
           (if decide (c = f)
            then [mkNotification (username U +:+ " has accepted your friend request.") now]
            else [])).
Proof.
  unfold acceptRequest, findById.
  destruct (isValid ru) eqn:Hvu; [|refused].
  destruct (isValid rf) eqn:Hvf; [|refused]. cbn [negb orb].
  destruct (castObjectId ru) as [u|] eqn:Hcu; [|refused].
  destruct (castObjectId rf) as [f|] eqn:Hcf; [|refused].
  cbn [fmap option_fmap option_map].
  destruct (s !! u) as [U|] eqn:HU; [|refused].
  destruct (s !! f) as [F|] eqn:HF; [|refused].
  cbn [fmap option_fmap option_map cur].
  destruct (includes (friendRequests U) rf) eqn:Hin; [|refused].
  destruct (includes_cast _ _ _ Hcf Hin) as [-> Hf].
  cbn [negb]. unfold friends_push. rewrite Hcu, Hcf.
  cbn [fmap option_fmap option_map]. rewrite filter_canon.
  unfold friendRequests_assign. cbn.
  rewrite decide_False by (by apply filter_ne_changes).
  unfold save. cbn. rewrite HU. cbn.
  rewrite bool_decide_eq_true_2 by done. cbn.
  rewrite lookup_insert.
  destruct (decide (u = f)) as [->|Hne]; cbn.
  - right. split; [done|]. assert (U = F) as -> by congruence.
    exists f, f, F, F. split_and!; try done. intros c.
    unfold friendsOf, pendingOf, notificationsOf.
    rewrite insert_insert_eq, lookup_insert.
    repeat destruct (decide _); simplify_eq; rewrite ?HU, ?HF; cbn;
      by rewrite ?app_nil_r.
  - rewrite HF. cbn. right. split; [done|].
    exists u, f, U, F. split_and!; try done. intros c.
    unfold friendsOf, pendingOf, notificationsOf.
    rewrite !lookup_insert.
    repeat destruct (decide _); simplify_eq; rewrite ?HU, ?HF; cbn;
      by rewrite ?app_nil_r.
Qed.

(** [rejectRequest]: either nothing is written and the answer is not 200,
    or the answer is 200: then [friendId] is the canonical spelling of a
    user whose request was pending, the request is filtered out and the
    requester is notified; [friends] is not touched. *)
Lemma rejectRequest_effect now ru rf (s : Store) :
  ((rejectRequest now ru rf s).1 = s ∧ status (rejectRequest now ru rf s).2 ≠ 200 ∧
   (status (rejectRequest now ru rf s).2 = 500 →
    isValid ru = true ∧ isValid rf = true ∧
    (castObjectId ru = None ∨ castObjectId rf = None)) ∧
   (∀ u f U F, castObjectId ru = Some u → castObjectId rf = Some f →
      s !! u = Some U → s !! f = Some F →
      includes (friendRequests U) rf = false)) ∨
  ((rejectRequest now ru rf s).2 = mkResponse 200 "Friend request rejected." ∧
   ∃ u f U F, castObjectId ru = Some u ∧ castObjectId rf = Some f ∧ rf = canon f ∧
     s !! u = Some U ∧ s !! f = Some F ∧ f ∈ friendRequests U ∧
     ∀ c,
       friendsOf (rejectRequest now ru rf s).1 c = friendsOf s c ∧
       pendingOf (rejectRequest now ru rf s).1 c
         = (if decide (c = u) then filter (λ id, id ≠ f) (pendingOf s c)
            else pendingOf s c) ∧
       notificationsOf (rejectRequest now ru rf s).1 c
         = notificationsOf s c ++
           (if decide (c = f)
            then [mkNotification (username U +:+ " has rejected your friend request.") now]
            else [])).
Proof.
  unfold rejectRequest, findById.
  destruct (isValid ru) eqn:Hvu; [|refused].
  destruct (isValid rf) eqn:Hvf; [|refused]. cbn [negb orb].
  destruct (castObjectId ru) as [u|] eqn:Hcu; [|refused].
  destruct (castObjectId rf) as [f|] eqn:Hcf; [|refused].
  cbn [fmap option_fmap option_map].
  destruct (s !! u) as [U|] eqn:HU; [|refused].
  destruct (s !! f) as [F|] eqn:HF; [|refused].
  cbn [fmap option_fmap option_map cur].
  destruct (includes (friendRequests U) rf) eqn:Hin; [|refused].
  destruct (includes_cast _ _ _ Hcf Hin) as [-> Hf].
  cbn [negb]. rewrite filter_canon.
  unfold friendRequests_assign. cbn.
  rewrite decide_False by (by apply filter_ne_changes).
  unfold save. cbn. rewrite HU. cbn.
  rewrite bool_decide_eq_true_2 by done. cbn.
  rewrite lookup_insert.
  destruct (decide (u = f)) as [->|Hne]; cbn.
  - right. split; [done|]. assert (U = F) as -> by congruence.
    exists f, f, F, F. split_and!; try done. intros c.
    unfold friendsOf, pendingOf, notificationsOf.
    rewrite insert_insert_eq, lookup_insert.
    repeat destruct (decide _); simplify_eq; rewrite ?HU, ?HF; cbn;
      by rewrite ?app_nil_r.
  - rewrite HF. cbn. right. split; [done|].
    exists u, f, U, F. split_and!; try done. intros c.
    unfold friendsOf, pendingOf, notificationsOf.
    rewrite !lookup_insert.
    repeat destruct (decide _); simplify_eq; rewrite ?HU, ?HF; cbn;
      by rewrite ?app_nil_r.
Qed.

(** Filtering by a second spelling what was filtered by a first. *)
Lemma filter_spellings (l : list ObjectId) (x y : Json) (a : ObjectId) :
  castObjectId x = Some a → castObjectId y = Some a →
  filter (λ id, canon id ≠ x) l ≠ l →
  filter (λ id, canon id ≠ y) (filter (λ id, canon id ≠ x) l)
  = filter (λ id, canon id ≠ x) l.
Proof.
  intros Hx Hy Hc. apply filter_spelling_includes in Hc.
  destruct (includes_cast _ _ _ Hx Hc) as [-> Ha].
  destruct (decide (filter (λ id, canon id ≠ y) l = l)) as [Hy'|Hy'].
  - apply filter_all. intros e [_ He]%list_elem_of_filter Heq.
    assert (includes l y = true) as Hi by (apply includes_true; eauto).
    by apply filter_spelling_changes in Hi.
  - apply filter_spelling_includes in Hy'.
    destruct (includes_cast _ _ _ Hy Hy') as [-> _].
    rewrite list_filter_filter. apply list_filter_iff. naive_solver.
Qed.

(** [unfriend]: without both users nothing is written; otherwise each
    [friends] array is filtered by the spelling the request gave for the
    other user, and no pending request is touched.  The answer is 200 and
    the second user is notified, except that for one user naming themselves
    canonically while in their own [friends] the second [save] is refused:
    then the answer is 500 and nobody is notified. *)
Lemma unfriend_effect now ru rf (s : Store) :
  ((unfriend now ru rf s).1 = s ∧ status (unfriend now ru rf s).2 ≠ 200 ∧
   (status (unfriend now ru rf s).2 = 500 →
    isValid ru = true ∧ isValid rf = true ∧
    (castObjectId ru = None ∨ castObjectId rf = None)) ∧
   (∀ u f U F, castObjectId ru = Some u → castObjectId rf = Some f →
      s !! u = Some U → s !! f = Some F → False)) ∨
  (∃ u f U F, castObjectId ru = Some u ∧ castObjectId rf = Some f ∧
     s !! u = Some U ∧ s !! f = Some F ∧
     (∀ c,
        friendsOf (unfriend now ru rf s).1 c
          = (let l := if decide (c = u)
                      then filter (λ id, canon id ≠ rf) (friendsOf s c)
                      else friendsOf s c in
             if decide (c = f) then filter (λ id, canon id ≠ ru) l else l) ∧
        pendingOf (unfriend now ru rf s).1 c = pendingOf s c) ∧
     (((unfriend now ru rf s).2 = mkResponse 200 "Unfriended successfully." ∧
       ∀ c, notificationsOf (unfriend now ru rf s).1 c
            = notificationsOf s c ++
              (if decide (c = f)
               then [mkNotification (username U +:+ " has unfriended you.") now]
               else [])) ∨
      ((unfriend now ru rf s).2 = serverError ∧ u = f ∧ ru = canon u ∧
       rf = canon u ∧ u ∈ friends U ∧
       ∀ c, notificationsOf (unfriend now ru rf s).1 c = notificationsOf s c))).
Proof.
  unfold unfriend, findById.
  destruct (isValid ru) eqn:Hvu; [|refused].
  destruct (isValid rf) eqn:Hvf; [|refused]. cbn [negb orb].
  destruct (castObjectId ru) as [u|] eqn:Hcu; [|refused].
  destruct (castObjectId rf) as [f|] eqn:Hcf; [|refused].
  cbn [fmap option_fmap option_map].
  destruct (s !! u) as [U|] eqn:HU; [|refused].
  destruct (s !! f) as [F|] eqn:HF; [|refused].
  cbn [fmap option_fmap option_map cur]. right. exists u, f, U, F.
  split; [done|]. split; [done|]. split; [done|]. split; [done|].
  unfold friends_assign. cbn [cur _id at_friends at_friendRequests at_notifications].
  destruct (decide (u = f)) as [->|Hne].
  - assert (U = F) as -> by congruence.
    destruct (decide (filter (λ id, canon id ≠ rf) (friends F) = friends F)) as [Ea|Ea].
    + destruct (decide (filter (λ id, canon id ≠ ru) (friends F) = friends F)) as [Eb|Eb];
        unfold save; cbn; rewrite HF; cbn;
        rewrite ?bool_decide_eq_true_2 by done; cbn.
      * split.
        -- intros c. unfold friendsOf, pendingOf. rewrite !lookup_insert.
           repeat destruct (decide _); simplify_eq; rewrite ?HU, ?HF; cbn;
             by rewrite ?Ea, ?Eb.
        -- left. split; [done|]. intros c. unfold notificationsOf.
           rewrite !lookup_insert.
           repeat destruct (decide _); simplify_eq; rewrite ?HU, ?HF; cbn;
             by rewrite ?app_nil_r.
      * split.
        -- intros c. unfold friendsOf, pendingOf. rewrite !lookup_insert.
           repeat destruct (decide _); simplify_eq; rewrite ?HU, ?HF; cbn;
             by rewrite ?Ea, ?Eb.
        -- left. split; [done|]. intros c. unfold notificationsOf.
           rewrite !lookup_insert.
           repeat destruct (decide _); simplify_eq; rewrite ?HU, ?HF; cbn;
             by rewrite ?app_nil_r.
    + pose proof (filter_spellings (friends F) rf ru f Hcf Hcu Ea) as Hff.
      destruct (decide (filter (λ id, canon id ≠ ru) (friends F) = friends F)) as [Eb|Eb];
        unfold save; cbn; rewrite HF; cbn;
        rewrite ?bool_decide_eq_true_2 by done; cbn;
        rewrite lookup_insert_eq; cbn.
      * split.
        -- intros c. unfold friendsOf, pendingOf. rewrite !lookup_insert.
           repeat destruct (decide _); simplify_eq; rewrite ?HU, ?HF; cbn;
             by rewrite ?Hff.
        -- left. split; [done|]. intros c. unfold notificationsOf.
           rewrite !lookup_insert.
           repeat destruct (decide _); simplify_eq; rewrite ?HU, ?HF; cbn;
             by rewrite ?app_nil_r.
      * rewrite bool_decide_eq_false_2 by lia. cbn. split.
        -- intros c. unfold friendsOf, pendingOf. rewrite !lookup_insert.
           repeat destruct (decide _); simplify_eq; rewrite ?HU, ?HF; cbn;
             by rewrite ?Hff.
        -- right.
           apply filter_spelling_includes in Ea, Eb.
           destruct (includes_cast _ _ _ Hcf Ea) as [-> Hin].
           destruct (includes_cast _ _ _ Hcu Eb) as [-> _].
           split_and!; try done.
           intros c. unfold notificationsOf. rewrite !lookup_insert.
           repeat destruct (decide _); simplify_eq; rewrite ?HU, ?HF; by cbn.
  - assert (f ≠ u) as Hne' by done.
    destruct (decide (filter (λ id, canon id ≠ rf) (friends U) = friends U)) as [Ea|Ea];
      destruct (decide (filter (λ id, canon id ≠ ru) (friends F) = friends F)) as [Eb|Eb];
      unfold save; cbn; rewrite ?HU; cbn;
      rewrite ?bool_decide_eq_true_2 by done; cbn;
      rewrite ?lookup_insert_ne by done; rewrite ?HF; cbn;
      rewrite ?bool_decide_eq_true_2 by done; cbn;
      (split;
       [ intros c; unfold friendsOf, pendingOf; rewrite ?lookup_insert;
         repeat destruct (decide _); simplify_eq; rewrite ?HU, ?HF; cbn;
         rewrite ?Ea, ?Eb; done
       | left; split; [done|]; intros c; unfold notificationsOf;
         rewrite ?lookup_insert;
         repeat destruct (decide _); simplify_eq; rewrite ?HU, ?HF; cbn;
         by rewrite ?app_nil_r ]).
Qed.

(** *** What no route writes *)

Lemma two_saves_other (s : Store) d1 d2 (r1 r2 r3 : Response) c :
  c ≠ _id d1 → c ≠ _id d2 →
  (match save s d1 with
   | None => (s, r1)
   | Some s1 =>
       match save s1 d2 with
       | None => (s1, r2)
       | Some s2 => (s2, r3)
       end
   end).1 !! c = s !! c.
Proof.
  intros H1 H2. destruct (save s d1) as [s1|] eqn:E1; [|done].
  destruct (save s1 d2) as [s2|] eqn:E2; cbn.
  - by rewrite (save_other _ _ _ _ E2), (save_other _ _ _ _ E1).
  - by rewrite (save_other _ _ _ _ E1).
Qed.

Lemma op_users_cast (o : Op) u f :
  castObjectId (op_userId o) = Some u → castObjectId (op_friendId o) = Some f →
  op_users o = [u; f].
Proof. unfold op_users. cbn. by intros -> ->. Qed.

(** A request writes only the documents of the users it names. *)
Lemma serve_other (s : Store) (o : Op) c :
  c ∉ op_users o → (serve s o).1 !! c = s !! c.
Proof.
  destruct o as [now ru rf|now ru rf|now ru rf|now ru rf]; cbn [serve]; intros Hc.
  - unfold sendRequest. enter_route ru rf s.
    rewrite (op_users_cast _ u f) in Hc by done.
    apply not_elem_of_cons in Hc as [Hu [Hf _]%not_elem_of_cons].
    destruct (_ || _); [done|]. destruct (includes _ _); [done|].
    unfold friendRequests_push. rewrite Hcu. cbn [fmap option_fmap option_map].
    destruct (save s _) as [s1|] eqn:E1; [|done]. simpl.
    by rewrite (save_other _ _ _ _ E1).
  - unfold acceptRequest. enter_route ru rf s.
    rewrite (op_users_cast _ u f) in Hc by done.
    apply not_elem_of_cons in Hc as [Hu [Hf _]%not_elem_of_cons].
    destruct (negb _); [done|].
    unfold friends_push. rewrite Hcu, Hcf. cbn [fmap option_fmap option_map].
    apply two_saves_other; doc_id.
  - unfold rejectRequest. enter_route ru rf s.
    rewrite (op_users_cast _ u f) in Hc by done.
    apply not_elem_of_cons in Hc as [Hu [Hf _]%not_elem_of_cons].
    destruct (negb _); [done|]. apply two_saves_other; doc_id.
  - unfold unfriend. enter_route ru rf s.
    rewrite (op_users_cast _ u f) in Hc by done.
    apply not_elem_of_cons in Hc as [Hu [Hf _]%not_elem_of_cons].
    apply two_saves_other; doc_id.
Qed.

Lemma save_profile (s s' : Store) d a :
  save s d = Some s' → profile <$> s' !! a = profile <$> s !! a.
Proof.
  intros [[_ ->]|[_ (db & Hdb & ->)]]%save_Some; [done|].
  rewrite lookup_insert. destruct (decide (_id d = a)) as [<-|]; [|done].
  by rewrite Hdb.
Qed.

Lemma two_saves_profile (s : Store) d1 d2 (r1 r2 r3 : Response) a :
  profile <$>
    (match save s d1 with
     | None => (s, r1)
     | Some s1 =>
         match save s1 d2 with
         | None => (s1, r2)
         | Some s2 => (s2, r3)
         end
     end).1 !! a
  = profile <$> s !! a.
Proof.
  destruct (save s d1) as [s1|] eqn:E1; [|done].
  destruct (save s1 d2) as [s2|] eqn:E2; cbn.
  - by rewrite (save_profile _ _ _ a E2), (save_profile _ _ _ a E1).
  - by rewrite (save_profile _ _ _ a E1).
Qed.

Lemma serve_profile (s : Store) (o : Op) a :
  profile <$> (serve s o).1 !! a = profile <$> s !! a.
Proof.
  destruct o as [now ru rf|now ru rf|now ru rf|now ru rf]; cbn [serve].
  - unfold sendRequest. enter_route ru rf s.
    destruct (_ || _); [done|]. destruct (includes _ _); [done|].
    unfold friendRequests_push. rewrite Hcu. cbn [fmap option_fmap option_map].
    destruct (save s _) as [s1|] eqn:E1; [|done]. simpl.
    by rewrite (save_profile _ _ _ a E1).
  - unfold acceptRequest. enter_route ru rf s.
    destruct (negb _); [done|].
    unfold friends_push. rewrite Hcu, Hcf. cbn [fmap option_fmap option_map].
    apply two_saves_profile.
  - unfold rejectRequest. enter_route ru rf s.
    destruct (negb _); [done|]. apply two_saves_profile.
  - unfold unfriend. enter_route ru rf s. apply two_saves_profile.
Qed.

Lemma run_profile (s : Store) (ops : list Op) a :
  profile <$> run s ops !! a = profile <$> s !! a.
Proof.
  revert s. induction ops as [|o ops IH]; intros s; [done|].
  cbn. rewrite IH. apply serve_profile.
Qed.

Lemma profile_username (U V : User) : profile U = profile V → username U = username V.
Proof. unfold profile. congruence. Qed.

Lemma serve_lookup (s : Store) (o : Op) a U :
  s !! a = Some U →
  ∃ U', (serve s o).1 !! a = Some U' ∧ profile U' = profile U.
Proof.
  intros HU. pose proof (serve_profile s o a) as H. rewrite HU in H.
  destruct ((serve s o).1 !! a) as [U'|]; [|done]. exists U'. split; [done|].
  cbn in H. congruence.
Qed.

Lemma run_lookup (s : Store) (ops : list Op) a U :
  s !! a = Some U →
  ∃ U', run s ops !! a = Some U' ∧ profile U' = profile U.
Proof.
  intros HU. pose proof (run_profile s ops a) as H. rewrite HU in H.
  destruct (run s ops !! a) as [U'|]; [|done]. exists U'. split; [done|].
  cbn in H. congruence.
Qed.

(** *** The routes on users that are found *)

(** [sendRequest] past the validation and the lookups. *)
Lemma sendRequest_found now ru rf u f (s : Store) U F :
  castObjectId ru = Some u → castObjectId rf = Some f → ru ≠ rf →
  s !! u = Some U → s !! f = Some F →
  sendRequest now ru rf s =
    if includes (friends U) rf || includes (friends F) ru
    then (s, AlreadyFriends)
    else if includes (friendRequests F) ru then (s, DuplicateRequest)
    else (<[f := mkUser (username F) (password F) (friends F)
                    (friendRequests F ++ [u]) (interests F)
                    (notifications F ++
                       [mkNotification (username U +:+ " has sent you a friend request.") now])
                    (version F + 1)%N]> s,
          mkResponse 200 "Friend request sent").
Proof.
  intros Hcu Hcf Hne HU HF. unfold sendRequest, findById.
  rewrite (castObjectId_isValid _ _ Hcu), (castObjectId_isValid _ _ Hcf).
  cbn [negb orb]. rewrite (strictEq_false _ _ Hne), Hcu, Hcf.
  cbn [fmap option_fmap option_map]. rewrite HU, HF.
  cbn [fmap option_fmap option_map cur].
  destruct (_ || _); [done|]. destruct (includes _ _); [done|].
  unfold friendRequests_push. rewrite Hcu.
  cbn [fmap option_fmap option_map]. unfold save. cbn. rewrite HF. by cbn.
Qed.

(** [acceptRequest] of a request that [includes] does not find. *)
Lemma acceptRequest_absent now ru rf u f (s : Store) U F :
  castObjectId ru = Some u → castObjectId rf = Some f →
  s !! u = Some U → s !! f = Some F →
  includes (friendRequests U) rf = false →
  acceptRequest now ru rf s = (s, NoSuchRequest).
Proof.
  intros Hcu Hcf HU HF Hin. unfold acceptRequest, findById.
  rewrite (castObjectId_isValid _ _ Hcu), (castObjectId_isValid _ _ Hcf).
  cbn [negb orb]. rewrite Hcu, Hcf.
  cbn [fmap option_fmap option_map]. rewrite HU, HF.
  cbn [fmap option_fmap option_map cur]. by rewrite Hin.
Qed.

Lemma rejectRequest_absent now ru rf u f (s : Store) U F :
  castObjectId ru = Some u → castObjectId rf = Some f →
  s !! u = Some U → s !! f = Some F →
  includes (friendRequests U) rf = false →
  rejectRequest now ru rf s = (s, NoSuchRequest).
Proof.
  intros Hcu Hcf HU HF Hin. unfold rejectRequest, findById.
  rewrite (castObjectId_isValid _ _ Hcu), (castObjectId_isValid _ _ Hcf).
  cbn [negb orb]. rewrite Hcu, Hcf.
  cbn [fmap option_fmap option_map]. rewrite HU, HF.
  cbn [fmap option_fmap option_map cur]. by rewrite Hin.
Qed.

(** [acceptRequest] by one user of the pending request of another, named
    canonically. *)
Lemma acceptRequest_pending now ru u f (s : Store) U F :
  castObjectId ru = Some u → twelveBytes f →
  u ≠ f → s !! u = Some U → s !! f = Some F → f ∈ friendRequests U →
  acceptRequest now ru (canon f) s =
    (<[f := mkUser (username F) (password F) (friends F ++ [u])
              (friendRequests F) (interests F)
              (notifications F ++
                 [mkNotification (username U +:+ " has accepted your friend request.") now])
              (version F + 1)%N]>
       (<[u := mkUser (username U) (password U) (friends U ++ [f])
                 (filter (λ id, id ≠ f) (friendRequests U)) (interests U)
                 (notifications U) (version U + 1)%N]> s),
     mkResponse 200 "Friend request accepted.").
Proof.
  intros Hcu Hcf%twelveBytes_cast Hne HU HF Hin. unfold acceptRequest, findById.
  rewrite (castObjectId_isValid _ _ Hcu), (castObjectId_isValid _ _ Hcf).
  cbn [negb orb]. rewrite Hcu, Hcf.
  cbn [fmap option_fmap option_map]. rewrite HU, HF.
  cbn [fmap option_fmap option_map cur].
  rewrite includes_canon, bool_decide_eq_true_2 by done. cbn [negb].
  unfold friends_push. rewrite Hcu, Hcf. cbn [fmap option_fmap option_map].
  rewrite filter_canon. unfold friendRequests_assign. cbn.
  rewrite decide_False by (by apply filter_ne_changes).
  unfold save. cbn. rewrite HU. cbn.
  rewrite bool_decide_eq_true_2 by done. cbn.
  rewrite lookup_insert_ne by done. rewrite HF. reflexivity.
Qed.

(** *** Symmetry of [friends] *)

Lemma symmetric_check_iff (s : Store) : symmetric s ↔ symmetric_check s.
Proof.
  unfold symmetric, symmetric_check. rewrite map_Forall_lookup. split.
  - intros Hs a U HU. apply Forall_forall. intros b Hb Hab.
    apply Hs; [done|]. by rewrite (friendsOf_lookup _ _ _ HU).
  - assert (∀ a b, b ∈ friendsOf s a → ∃ U, s !! a = Some U ∧ b ∈ friends U) as Hex.
    { intros a b. unfold friendsOf. destruct (s !! a) as [U|]; simpl; [eauto|].
      by intros ?%elem_of_nil. }
    intros Hc a b Hab. split; intros Hin.
    + destruct (Hex _ _ Hin) as (U & HU & HinU).
      specialize (Hc _ _ HU). rewrite Forall_forall in Hc. by apply Hc.
    + destruct (Hex _ _ Hin) as (U & HU & HinU).
      specialize (Hc _ _ HU). rewrite Forall_forall in Hc. by apply Hc.
Qed.

(** C1. [unfriend] with one identifier spelled in upper case removes the
    pair on one side only.  In a collection of two users who are each in
    the other's [friends], a request to [unfriend] that names the first with
    an upper-case digit and the second as [toString()] renders it is
    answered with 200; the first user's [friends] is then empty and the
    second user's still holds the first: [friends] was symmetric before the
    request and is not after it. *)
Theorem unfriend_breaks_symmetry :
  symmetric ten_eleven ∧
  castObjectId (JString ID10) = Some 10%N ∧
  castObjectId (JString id11) = Some 11%N ∧
  (serve ten_eleven (OpUnfriend 20 (JString ID10) (JString id11))).2
    = mkResponse 200 "Unfriended successfully." ∧
  friendsOf (run ten_eleven [OpUnfriend 20 (JString ID10) (JString id11)]) 10 = [] ∧
  friendsOf (run ten_eleven [OpUnfriend 20 (JString ID10) (JString id11)]) 11
    = [10%N] ∧
  ¬ symmetric (run ten_eleven [OpUnfriend 20 (JString ID10) (JString id11)]).
Proof.
  split_and!; try by vm_compute.
  - apply symmetric_check_iff, (bool_decide_unpack _). by vm_compute.
  - intros H. specialize (H 10%N 11%N). 
    assert (10%N ∈ friendsOf (run ten_eleven [OpUnfriend 20 (JString ID10) (JString id11)]) 11) as Hin.
    { apply (bool_decide_unpack _). by vm_compute. }
    apply H in Hin; [|done]. revert Hin. apply (bool_decide_unpack _). by vm_compute.
Qed.

(** C2. After crossed requests, accepting one of them makes the two users
    friends and leaves the other request pending: [bob] is then both in
    [alice]'s [friends] and in [alice]'s pending requests, although the
    collection the requests started from has no friends and no pending
    requests.  When [alice] accepts the request that is left, each of the
    two is in the other's [friends] twice. *)
Theorem crossed_requests_stay_pending :
  (∀ a, friendsOf two_users a = [] ∧ pendingOf two_users a = []) ∧
  friendsOf (run two_users crossed_requests) 1 = [2%N] ∧
  friendsOf (run two_users crossed_requests) 2 = [1%N] ∧
  pendingOf (run two_users crossed_requests) 1 = [2%N] ∧
  pendingOf (run two_users crossed_requests) 2 = [] ∧
  friendsOf (run two_users
               (crossed_requests ++ [OpAccept 13 (JString id1) (JString id2)])) 1
    = [2; 2]%N ∧
  friendsOf (run two_users
               (crossed_requests ++ [OpAccept 13 (JString id1) (JString id2)])) 2
    = [1; 1]%N.
Proof.
  split; [|by vm_compute].
  intros a. unfold friendsOf, pendingOf, two_users.
  rewrite !lookup_insert, lookup_empty.
  by repeat destruct (decide _).
Qed.

(** *** The routes on two distinct stored users *)

(** C7. When [a] has a request pending with [b] (two distinct stored
    users), a request to [acceptRequest] for [b] that spells [a]
    canonically is answered with success; and whenever [acceptRequest(b, a)]
    is answered with success, however the request spells the two, it leaves
    [a] out of [b]'s pending requests, and the same request served again on
    the resulting collection is answered with [NoSuchRequest] and changes
    nothing. *)
Theorem accept_consumes_request now now' ru rf a b (s : Store) UA UB :
  castObjectId ru = Some b → castObjectId rf = Some a →
  a ≠ b → s !! a = Some UA → s !! b = Some UB → a ∈ friendRequests UB →
  (rf = canon a →
   (acceptRequest now ru rf s).2 = mkResponse 200 "Friend request accepted.") ∧
  (status (acceptRequest now ru rf s).2 = 200 →
   (a ∉ pendingOf (acceptRequest now ru rf s).1 b) ∧
   acceptRequest now' ru rf (acceptRequest now ru rf s).1
     = ((acceptRequest now ru rf s).1, NoSuchRequest)).
Proof.
  intros Hcu Hcf Hne HA HB Hin.
  destruct (serve_lookup s (OpAccept now ru rf) a UA HA) as (UA1 & HA1 & _).
  destruct (serve_lookup s (OpAccept now ru rf) b UB HB) as (UB1 & HB1 & _).
  cbn [serve] in HA1, HB1.
  destruct (acceptRequest_effect now ru rf s)
    as [(_ & Hst & _ & Hr)|(Hst & u & f & U & F & Hcu' & Hcf' & Hrf & _ & _ & _ & H)].
  - specialize (Hr _ _ _ _ Hcu Hcf HB HA). split; [|done].
    intros ->. rewrite includes_canon, bool_decide_eq_true_2 in Hr; done.
  - assert (u = b) as -> by congruence. assert (f = a) as -> by congruence.
    split; [done|]. intros _.
    assert (a ∉ pendingOf (acceptRequest now ru rf s).1 b) as Hout.
    { destruct (H b) as (_ & -> & _). rewrite decide_True by done.
      rewrite list_elem_of_filter. naive_solver. }
    split; [done|].
    eapply acceptRequest_absent; [done|done|exact HB1|exact HA1|].
    rewrite Hrf, includes_canon. apply bool_decide_eq_false_2.
    by rewrite (pendingOf_lookup _ _ _ HB1) in Hout.
Qed.

(** [sendRequest] when the request is already pending, both users named
    canonically. *)
Lemma sendRequest_pending now u f (s : Store) U F :
  twelveBytes u → twelveBytes f →
  u ≠ f → s !! u = Some U → s !! f = Some F → u ∈ friendRequests F →
  sendRequest now (canon u) (canon f) s =
    (s, if decide (f ∈ friends U ∨ u ∈ friends F)
        then AlreadyFriends else DuplicateRequest).
Proof.
  intros Hu%twelveBytes_cast Hf%twelveBytes_cast Hne HU HF Hin.
  rewrite (sendRequest_found now _ _ u f s U F); try done.
  2:{ intros ?%canon_inj. done. }
  rewrite !includes_canon.
  destruct (decide (f ∈ friends U ∨ u ∈ friends F)) as [[H|H]|H].
  - by rewrite (bool_decide_eq_true_2 _ H).
  - rewrite (bool_decide_eq_true_2 _ H). by rewrite orb_true_r.
  - rewrite !bool_decide_eq_false_2 by naive_solver. simpl.
    by rewrite bool_decide_eq_true_2.
Qed.


(** C10. A [sendRequest] that names one user in two spellings is not
    refused as a request to oneself.  With the identifier of a stored user
    once with an upper-case digit and once as [toString()] renders it, the
    request is answered with 200, and the requester's own document gets the
    request and the notification: the requester is in their own pending
    requests. *)
Theorem self_request_in_two_spellings :
  castObjectId (JString ID10) = Some 10%N ∧
  castObjectId (JString id10) = Some 10%N ∧
  (sendRequest 30 (JString ID10) (JString id10) ten_eleven_strangers).2
    = mkResponse 200 "Friend request sent" ∧
  (sendRequest 30 (JString ID10) (JString id10) ten_eleven_strangers).1 !! 10%N
    = Some (mkUser "ten" "$2a$10$t" [] [10%N] []
              [mkNotification "ten has sent you a friend request." 30] 1) ∧
  ten_eleven_strangers !! 10%N = Some (mkUser "ten" "$2a$10$t" [] [] [] [] 0) ∧
  sendRequest 30 (JString id10) (JString id10) ten_eleven_strangers
    = (ten_eleven_strangers, InvalidArgument).
Proof. split_and!; by vm_compute. Qed.

(** C3. [unfriend(a, b)] on two distinct stored users is answered
    with success whatever the state of the pair: there is no [NotFriends]
    answer.  It appends one notification to [b], and changes no pending
    request, no notification of [a] and no other user; it leaves [a]'s
    [friends] without [b] when the request spells [b] canonically, and
    [b]'s without [a] when it spells [a] canonically; when the two were not
    friends the [friends] arrays stay as they were and [b] is notified all
    the same. *)
Theorem unfriend_unconditional now ru rf a b (s : Store) UA UB :
  castObjectId ru = Some a → castObjectId rf = Some b →
  a ≠ b → s !! a = Some UA → s !! b = Some UB →
  (unfriend now ru rf s).2 = mkResponse 200 "Unfriended successfully." ∧
  (rf = canon b →
   friendsOf (unfriend now ru rf s).1 a = filter (λ id, id ≠ b) (friends UA)) ∧
  (ru = canon a →
   friendsOf (unfriend now ru rf s).1 b = filter (λ id, id ≠ a) (friends UB)) ∧
  notificationsOf (unfriend now ru rf s).1 b =
    notifications UB ++ [mkNotification (username UA +:+ " has unfriended you.") now] ∧
  notificationsOf (unfriend now ru rf s).1 a = notifications UA ∧
  pendingOf (unfriend now ru rf s).1 a = friendRequests UA ∧
  pendingOf (unfriend now ru rf s).1 b = friendRequests UB ∧
  (∀ j, j ≠ a → j ≠ b → (unfriend now ru rf s).1 !! j = s !! j) ∧
  (b ∉ friends UA → a ∉ friends UB →
   friendsOf (unfriend now ru rf s).1 a = friends UA ∧
   friendsOf (unfriend now ru rf s).1 b = friends UB).
Proof.
  intros Hcu Hcf Hne HA HB. assert (b ≠ a) as Hne' by done.
  destruct (unfriend_effect now ru rf s)
    as [(_ & _ & _ & Hr)|(u & f & U & F & Hcu' & Hcf' & HU & HF & H & Hres)].
  { by destruct (Hr _ _ _ _ Hcu Hcf HA HB). }
  assert (u = a) as -> by congruence. assert (f = b) as -> by congruence.
  assert (U = UA) as -> by congruence. assert (F = UB) as -> by congruence.
  destruct Hres as [(Hst & Hn)|(_ & ? & _)]; [|done].
  assert (friendsOf (unfriend now ru rf s).1 a
          = filter (λ id, canon id ≠ rf) (friends UA)) as Hfa.
  { destruct (H a) as (-> & _). cbn zeta.
    destruct (decide (a = a)); [|done]. destruct (decide (a = b)); [done|].
    by rewrite (friendsOf_lookup _ _ _ HA). }
  assert (friendsOf (unfriend now ru rf s).1 b
          = filter (λ id, canon id ≠ ru) (friends UB)) as Hfb.
  { destruct (H b) as (-> & _). cbn zeta.
    destruct (decide (b = a)); [done|]. destruct (decide (b = b)); [|done].
    by rewrite (friendsOf_lookup _ _ _ HB). }
  split_and!.
  - done.
  - intros ->. by rewrite Hfa, filter_canon.
  - intros ->. by rewrite Hfb, filter_canon.
  - rewrite Hn, decide_True by done. by rewrite (notificationsOf_lookup _ _ _ HB).
  - rewrite Hn, decide_False by done.
    by rewrite app_nil_r, (notificationsOf_lookup _ _ _ HA).
  - destruct (H a) as (_ & ->). by rewrite (pendingOf_lookup _ _ _ HA).
  - destruct (H b) as (_ & ->). by rewrite (pendingOf_lookup _ _ _ HB).
  - intros j Hja Hjb. apply (serve_other s (OpUnfriend now ru rf)).
    rewrite (op_users_cast _ a b) by done.
    rewrite !not_elem_of_cons. split_and!; [done|done|apply not_elem_of_nil].
  - intros Hb Ha. rewrite Hfa, Hfb. split; apply filter_spelling_id.
    + destruct (includes (friends UA) rf) eqn:E; [|done].
      by destruct (includes_cast _ _ _ Hcf E).
    + destruct (includes (friends UB) ru) eqn:E; [|done].
      by destruct (includes_cast _ _ _ Hcu E).
Qed.

(** *** The routes on sample collections *)

Lemma unfriend_strangers_counterexample :
  castObjectId (JString id1) = Some 1%N ∧ castObjectId (JString id2) = Some 2%N ∧
  two_users !! 1%N = Some alice ∧ two_users !! 2%N = Some bob ∧
  (2%N ∉ friends alice) ∧ (1%N ∉ friends bob) ∧
  (unfriend 20 (JString id1) (JString id2) two_users).2
    = mkResponse 200 "Unfriended successfully." ∧
  (unfriend 20 (JString id1) (JString id2) two_users).1 !! 2%N ≠ two_users !! 2%N.
Proof.
  split_and!; [by vm_compute|by vm_compute|by vm_compute|by vm_compute
              |apply (bool_decide_unpack _); by vm_compute..
              |by vm_compute|by vm_compute].
Qed.

Lemma unfriend_unconditional_witness :
  (unfriend 20 (JString id1) (JString id2) two_users).2
    = mkResponse 200 "Unfriended successfully." ∧
  notificationsOf (unfriend 20 (JString id1) (JString id2) two_users).1 2 =
    notifications bob ++ [mkNotification (username alice +:+ " has unfriended you.") 20].
Proof.
  destruct (unfriend_unconditional 20 (JString id1) (JString id2) 1 2
              two_users alice bob)
    as (H1 & _ & _ & H2 & _); [by vm_compute|by vm_compute|done|reflexivity|reflexivity|].
  split; [exact H1|exact H2].
Defined.



Lemma accept_consumes_request_witness :
  (acceptRequest 11 (JString id2) (JString id1)
     (run two_users [OpRequest 10 (JString id1) (JString id2)])).2
    = mkResponse 200 "Friend request accepted." ∧
  (1%N ∉ pendingOf
           (acceptRequest 11 (JString id2) (JString id1)
              (run two_users [OpRequest 10 (JString id1) (JString id2)])).1 2) ∧
  acceptRequest 12 (JString id2) (JString id1)
    (acceptRequest 11 (JString id2) (JString id1)
       (run two_users [OpRequest 10 (JString id1) (JString id2)])).1
  = ((acceptRequest 11 (JString id2) (JString id1)
        (run two_users [OpRequest 10 (JString id1) (JString id2)])).1,
     NoSuchRequest).
Proof.
  destruct (accept_consumes_request 11 12 (JString id2) (JString id1) 1 2
              (run two_users [OpRequest 10 (JString id1) (JString id2)])
              alice bob_asked)
    as (H1 & H2);
    [by vm_compute|by vm_compute|done|by vm_compute|by vm_compute
    |apply (bool_decide_unpack _); by vm_compute|].
  split; [apply H1; by vm_compute|]. apply H2. by vm_compute.
Defined.

(** * Further properties of the workflow routes *)

(** *** Answers *)

(** X1. A workflow request that is answered with a client error (any status
    other than 200 and 500) has written nothing: the collection is exactly
    as it was. *)
Theorem client_error_writes_nothing (s : Store) (o : Op) :
  status (serve s o).2 ≠ 200 → status (serve s o).2 ≠ 500 →
  (serve s o).1 = s.
Proof.
  destruct o as [now ru rf|now ru rf|now ru rf|now ru rf]; cbn [serve]; intros H2 H5.
  - destruct (sendRequest_effect now ru rf s)
      as [(H & _)|(u & f & U & F & _ & _ & _ & _ & _ & _ & _ & _ & H)]; [done|].
    by rewrite H in H2.
  - destruct (acceptRequest_effect now ru rf s) as [(H & _)|(H & _)]; [done|].
    by rewrite H in H2.
  - destruct (rejectRequest_effect now ru rf s) as [(H & _)|(H & _)]; [done|].
    by rewrite H in H2.
  - destruct (unfriend_effect now ru rf s)
      as [(H & _)|(u & f & U & F & _ & _ & _ & _ & _ & [(H & _)|(H & _)])];
      [done|by rewrite H in H2|by rewrite H in H5].
Qed.




(** X25. A number for an identifier passes the validation and makes
    [findById] raise: [acceptRequest], [rejectRequest] and [unfriend] answer
    it with the server error, and so does [sendRequest] unless the two
    values are the same number, which it refuses as a request to oneself.
    Nothing is written. *)
Theorem numeric_id_is_server_error now (z : Z) (r : Json) (s : Store) :
  isValid r = true →
  acceptRequest now (JNumber z) r s = (s, serverError) ∧
  acceptRequest now r (JNumber z) s = (s, serverError) ∧
  rejectRequest now (JNumber z) r s = (s, serverError) ∧
  rejectRequest now r (JNumber z) s = (s, serverError) ∧
  unfriend now (JNumber z) r s = (s, serverError) ∧
  unfriend now r (JNumber z) s = (s, serverError) ∧
  (r ≠ JNumber z →
   sendRequest now (JNumber z) r s = (s, serverError) ∧
   sendRequest now r (JNumber z) s = (s, serverError)) ∧
  sendRequest now (JNumber z) (JNumber z) s = (s, InvalidArgument).
Proof.
  intros Hr. unfold acceptRequest, rejectRequest, unfriend, sendRequest, findById.
  rewrite Hr. change (isValid (JNumber z)) with true.
  change (castObjectId (JNumber z)) with (@None ObjectId). cbn [negb orb].
  split_and!; try by destruct (castObjectId r).
  - intros Hne. rewrite !strictEq_false by done.
    split; by destruct (castObjectId r).
  - unfold strictEq. by rewrite bool_decide_eq_true_2.
Qed.

(** X26. A request with a value that [isValid] refuses is answered with
    400 and [Invalid user IDs], whichever of the four routes it is sent to
    and whatever the other value is, and nothing is written. *)
Theorem invalid_id_is_refused (s : Store) (o : Op) :
  isValid (op_userId o) = false ∨ isValid (op_friendId o) = false →
  serve s o = (s, invalidUserIds).
Proof.
  destruct o as [now ru rf|now ru rf|now ru rf|now ru rf];
    cbn [serve op_userId op_friendId];
    unfold sendRequest, acceptRequest, rejectRequest, unfriend;
    intros [->| ->]; by rewrite ?orb_true_r.
Qed.

(** *** Invariants of the collection, for requests spelled canonically *)

Lemma canonical_op_cast (o : Op) u f :
  canonical_op o →
  castObjectId (op_userId o) = Some u → castObjectId (op_friendId o) = Some f →
  op_userId o = canon u ∧ op_friendId o = canon f.
Proof. intros [Hu Hf] Hcu Hcf. split; by apply wellSpelled_cast. Qed.

Lemma unfriend_friendsOf_canonical now ru rf (s : Store) a b :
  wellSpelled ru → wellSpelled rf → a ≠ b →
  (∀ c, friendsOf (unfriend now ru rf s).1 c = friendsOf s c) ∨
  ∃ u f,
    (b ∈ friendsOf (unfriend now ru rf s).1 a ↔
     b ∈ friendsOf s a ∧ ¬ (a = u ∧ b = f) ∧ ¬ (a = f ∧ b = u)) ∧
    (a ∈ friendsOf (unfriend now ru rf s).1 b ↔
     a ∈ friendsOf s b ∧ ¬ (b = u ∧ a = f) ∧ ¬ (b = f ∧ a = u)).
Proof.
  intros Hwu Hwf Hab.
  destruct (unfriend_effect now ru rf s)
    as [(-> & _)|(u & f & U & F & Hcu & Hcf & HU & HF & H & _)]; [by left|].
  right. exists u, f.
  pose proof (wellSpelled_cast _ _ Hwu Hcu) as ->.
  pose proof (wellSpelled_cast _ _ Hwf Hcf) as ->.
  destruct (H a) as (-> & _). destruct (H b) as (-> & _). cbn zeta.
  rewrite !filter_canon.
  split; repeat destruct (decide _); simplify_eq;
    rewrite ?list_elem_of_filter; naive_solver.
Qed.

Lemma serve_symmetric (s : Store) (o : Op) :
  canonical_op o → symmetric s → symmetric (serve s o).1.
Proof.
  intros [Hwu Hwf] Hs a b Hab.
  destruct o as [now ru rf|now ru rf|now ru rf|now ru rf];
    cbn [serve op_userId op_friendId] in *.
  - destruct (sendRequest_effect now ru rf s)
      as [(-> & _)|(u & f & U & F & _ & _ & _ & _ & HF & _ & _ & _ & ->)];
      [by apply Hs|].
    cbn [fst]. rewrite !friendsOf_insert.
    repeat destruct (decide _); simplify_eq; cbn;
      rewrite <- ?(friendsOf_lookup _ _ _ HF); by apply Hs.
  - destruct (acceptRequest_effect now ru rf s)
      as [(-> & _)|(_ & u & f & U & F & _ & _ & _ & _ & _ & _ & H)];
      [by apply Hs|].
    destruct (H a) as (-> & _). destruct (H b) as (-> & _).
    specialize (Hs a b Hab).
    repeat destruct (decide _); simplify_eq;
      rewrite ?elem_of_app, ?list_elem_of_singleton, ?elem_of_nil; naive_solver.
  - destruct (rejectRequest_effect now ru rf s)
      as [(-> & _)|(_ & u & f & U & F & _ & _ & _ & _ & _ & _ & H)];
      [by apply Hs|].
    destruct (H a) as (-> & _). destruct (H b) as (-> & _). by apply Hs.
  - destruct (unfriend_friendsOf_canonical now ru rf s b a Hwu Hwf)
      as [H|(u & f & H1 & H2)]; [done| |].
    + rewrite !H. by apply Hs.
    + rewrite H1, H2. specialize (Hs a b Hab). naive_solver.
Qed.

(** X22. Symmetry of [friends] is kept by every sequence of workflow
    requests that spell canonically the users they name: started from a
    collection in which each of two distinct users is in the other's
    [friends] whenever the other is in theirs, such a sequence ends in such
    a collection. *)
Theorem friends_symmetric_when_canonical (s : Store) (ops : list Op) :
  Forall canonical_op ops → symmetric s →
  ∀ a b, a ≠ b → (a ∈ friendsOf (run s ops) b ↔ b ∈ friendsOf (run s ops) a).
Proof.
  intros Hops. revert s. induction Hops as [|o ops Ho Hops IH]; intros s Hs; [exact Hs|].
  simpl. apply IH. by apply serve_symmetric.
Qed.

Lemma serve_no_self_pairs (s : Store) (o : Op) :
  canonical_op o → no_self_pairs s → no_self_pairs (serve s o).1.
Proof.
  intros [Hwu Hwf] Hs a. destruct (Hs a) as [Hf Hp].
  destruct o as [now ru rf|now ru rf|now ru rf|now ru rf];
    cbn [serve op_userId op_friendId] in *.
  - destruct (sendRequest_effect now ru rf s)
      as [(-> & _)|(u & f & U & F & Hcu & Hcf & Hne & _ & HF & _ & _ & _ & ->)];
      [done|].
    cbn [fst]. rewrite friendsOf_insert, pendingOf_insert.
    destruct (decide (a = f)) as [->|]; [|done]. cbn.
    rewrite <- (friendsOf_lookup _ _ _ HF), <- (pendingOf_lookup _ _ _ HF).
    split; [done|].
    rewrite elem_of_app, list_elem_of_singleton. intros [?| ->]; [done|].
    apply Hne.
    by rewrite (wellSpelled_cast _ _ Hwu Hcu), (wellSpelled_cast _ _ Hwf Hcf).
  - destruct (acceptRequest_effect now ru rf s)
      as [(-> & _)|(_ & u & f & U & F & _ & _ & _ & HU & HF & Hin & H)]; [done|].
    destruct (H a) as (-> & -> & _). split.
    + rewrite !elem_of_app.
      destruct (decide (a = u)) as [->|]; destruct (decide (u = f)) as [->|];
        try destruct (decide (a = f)) as [->|];
        rewrite ?list_elem_of_singleton, ?elem_of_nil; try naive_solver.
      rewrite (pendingOf_lookup _ _ _ HU) in Hp. naive_solver.
    + destruct (decide (a = u)); [|done]. rewrite list_elem_of_filter. naive_solver.
  - destruct (rejectRequest_effect now ru rf s)
      as [(-> & _)|(_ & u & f & U & F & _ & _ & _ & HU & HF & Hin & H)]; [done|].
    destruct (H a) as (-> & -> & _). split; [done|].
    destruct (decide (a = u)); [|done]. rewrite list_elem_of_filter. naive_solver.
  - destruct (unfriend_effect now ru rf s)
      as [(-> & _)|(u & f & U & F & _ & _ & HU & HF & H & _)]; [done|].
    destruct (H a) as (-> & ->). split; [|done]. cbn zeta.
    repeat destruct (decide _); rewrite ?list_elem_of_filter; naive_solver.
Qed.

(** X3. No self-pairs: when no user is in their own [friends] or pending
    requests, this is still so after any sequence of workflow requests that
    spell canonically the users they name. *)
Theorem no_self_pairs_kept (s : Store) (ops : list Op) :
  Forall canonical_op ops → no_self_pairs s → no_self_pairs (run s ops).
Proof.
  intros Hops. revert s. induction Hops as [|o ops Ho Hops IH]; intros s Hs; [done|].
  cbn. apply IH. by apply serve_no_self_pairs.
Qed.

Lemma no_self_pairs_check_iff (s : Store) :
  no_self_pairs s ↔ no_self_pairs_check s.
Proof.
  unfold no_self_pairs, no_self_pairs_check, friendsOf, pendingOf.
  rewrite map_Forall_lookup. split.
  - intros Hs a U HU. specialize (Hs a). by rewrite HU in Hs.
  - intros Hs a. destruct (s !! a) as [U|] eqn:HU; cbn.
    + by apply (Hs a U).
    + split; apply not_elem_of_nil.
Qed.

Lemma pending_distinct_alt (s : Store) :
  pending_distinct s ↔ ∀ a, NoDup (pendingOf s a).
Proof.
  unfold pending_distinct, pendingOf. rewrite map_Forall_lookup. split.
  - intros Hs a. destruct (s !! a) as [U|] eqn:HU; cbn; [by apply (Hs a U)|].
    constructor.
  - intros Hs a U HU. specialize (Hs a). by rewrite HU in Hs.
Qed.

Lemma serve_pending_distinct (s : Store) (o : Op) :
  canonical_op o → pending_distinct s → pending_distinct (serve s o).1.
Proof.
  rewrite !pending_distinct_alt. intros [Hwu Hwf] Hs a. specialize (Hs a).
  destruct o as [now ru rf|now ru rf|now ru rf|now ru rf];
    cbn [serve op_userId op_friendId] in *.
  - destruct (sendRequest_effect now ru rf s)
      as [(-> & _)|(u & f & U & F & Hcu & Hcf & Hne & _ & HF & _ & _ & Hp & ->)];
      [done|].
    cbn [fst]. rewrite pendingOf_insert.
    destruct (decide (a = f)) as [->|]; [|done]. cbn.
    rewrite (pendingOf_lookup _ _ _ HF) in Hs.
    apply NoDup_app. split_and!; [done| |apply NoDup_singleton].
    intros x Hx ->%list_elem_of_singleton.
    rewrite (includes_wellSpelled _ _ _ Hwu Hcu) in Hp.
    by apply bool_decide_eq_false_1 in Hp.
  - destruct (acceptRequest_effect now ru rf s)
      as [(-> & _)|(_ & u & f & U & F & _ & _ & _ & HU & HF & Hin & H)]; [done|].
    destruct (H a) as (_ & -> & _).
    destruct (decide (a = u)); [|done]. by apply NoDup_filter.
  - destruct (rejectRequest_effect now ru rf s)
      as [(-> & _)|(_ & u & f & U & F & _ & _ & _ & HU & HF & Hin & H)]; [done|].
    destruct (H a) as (_ & -> & _).
    destruct (decide (a = u)); [|done]. by apply NoDup_filter.
  - destruct (unfriend_effect now ru rf s)
      as [(-> & _)|(u & f & U & F & _ & _ & HU & HF & H & _)]; [done|].
    destruct (H a) as (_ & ->). done.
Qed.

(** X4. Pending requests stay distinct: when no [friendRequests] array holds
    an identifier twice, none does after any sequence of workflow requests
    that spell canonically the users they name ([sendRequest] refuses a
    request that [includes] finds pending, the other routes only
    filter). *)
Theorem pending_distinct_kept (s : Store) (ops : list Op) :
  Forall canonical_op ops → pending_distinct s → pending_distinct (run s ops).
Proof.
  intros Hops. revert s. induction Hops as [|o ops Ho Hops IH]; intros s Hs; [done|].
  cbn. apply IH. by apply serve_pending_distinct.
Qed.

(** X5. The workflow routes neither create nor delete a user and never write
    [username], [password] or [interests]: after any sequence of workflow
    requests every identifier resolves to a document with the same three
    fields as before, or to none as before. *)
Theorem profiles_kept (s : Store) (ops : list Op) (a : ObjectId) :
  profile <$> run s ops !! a = profile <$> s !! a.
Proof. apply run_profile. Qed.

(** *** Requests, answers and what they lead to *)

(** X24. A [sendRequest] that is answered with 200 was made for a stored
    user [u] to a stored user [f], the users its two values are cast to; it
    appends [u] to [f]'s pending requests and one notification to [f]'s
    notifications (and increments [f]'s [__v]), leaves the other fields of
    [f] as they were, and leaves the document of every other user as it
    was.  When the request spells both users canonically they are two
    different users. *)
Theorem sendRequest_frame now ru rf (s : Store) :
  status (sendRequest now ru rf s).2 = 200 →
  ∃ u f U F, castObjectId ru = Some u ∧ castObjectId rf = Some f ∧
    s !! u = Some U ∧ s !! f = Some F ∧
    (sendRequest now ru rf s).1 !! f =
      Some (mkUser (username F) (password F) (friends F)
              (friendRequests F ++ [u]) (interests F)
              (notifications F ++
                 [mkNotification (username U +:+ " has sent you a friend request.") now])
              (version F + 1)%N) ∧
    (∀ j, j ≠ f → (sendRequest now ru rf s).1 !! j = s !! j) ∧
    (wellSpelled ru → wellSpelled rf → u ≠ f).
Proof.
  intros Hst.
  destruct (sendRequest_effect now ru rf s)
    as [(_ & H & _)|(u & f & U & F & Hcu & Hcf & Hne & HU & HF & _ & _ & _ & ->)];
    [done|].
  exists u, f, U, F. cbn [fst]. split_and!; try done.
  - apply lookup_insert_eq.
  - intros j Hj. by rewrite lookup_insert_ne.
  - intros Hwu Hwf ->. apply Hne.
    by rewrite (wellSpelled_cast _ _ Hwu Hcu), (wellSpelled_cast _ _ Hwf Hcf).
Qed.

(** X6. [rejectRequest(u, f)] when [f] is in [u]'s pending requests is
    answered with 200 when the request spells [f] canonically; and whenever
    it is answered with 200 it leaves [f] out of [u]'s pending requests,
    appends one notification to [f], changes no [friends] array, no other
    pending request and no other notification, and the same request served
    again is answered with [NoSuchRequest] and writes nothing. *)
Theorem reject_consumes_request now now' ru rf u f (s : Store) U F :
  castObjectId ru = Some u → castObjectId rf = Some f →
  s !! u = Some U → s !! f = Some F → f ∈ friendRequests U →
  (rf = canon f →
   (rejectRequest now ru rf s).2 = mkResponse 200 "Friend request rejected.") ∧
  (status (rejectRequest now ru rf s).2 = 200 →
   (f ∉ pendingOf (rejectRequest now ru rf s).1 u) ∧
   (∀ c, friendsOf (rejectRequest now ru rf s).1 c = friendsOf s c) ∧
   (∀ c, c ≠ u → pendingOf (rejectRequest now ru rf s).1 c = pendingOf s c) ∧
   notificationsOf (rejectRequest now ru rf s).1 f
     = notifications F ++
       [mkNotification (username U +:+ " has rejected your friend request.") now] ∧
   (∀ c, c ≠ f →
      notificationsOf (rejectRequest now ru rf s).1 c = notificationsOf s c) ∧
   rejectRequest now' ru rf (rejectRequest now ru rf s).1
     = ((rejectRequest now ru rf s).1, NoSuchRequest)).
Proof.
  intros Hcu Hcf HU HF Hin.
  destruct (serve_lookup s (OpReject now ru rf) u U HU) as (U1 & HU1 & _).
  destruct (serve_lookup s (OpReject now ru rf) f F HF) as (F1 & HF1 & _).
  cbn [serve] in HU1, HF1.
  destruct (rejectRequest_effect now ru rf s)
    as [(_ & Hst & _ & Hr)
       |(Hst & u' & f' & U' & F' & Hcu' & Hcf' & Hrf & HU' & _ & _ & H)].
  - specialize (Hr _ _ _ _ Hcu Hcf HU HF). split; [|done].
    intros ->. rewrite includes_canon, bool_decide_eq_true_2 in Hr; done.
  - assert (u' = u) as -> by congruence. assert (f' = f) as -> by congruence.
    assert (U' = U) as -> by congruence.
    split; [done|]. intros _.
    assert (f ∉ pendingOf (rejectRequest now ru rf s).1 u) as Hout.
    { destruct (H u) as (_ & -> & _). rewrite decide_True by done.
      rewrite list_elem_of_filter. naive_solver. }
    split_and!; [done|..].
    + intros c. by destruct (H c) as (-> & _).
    + intros c Hc. destruct (H c) as (_ & -> & _). by rewrite decide_False.
    + destruct (H f) as (_ & _ & ->). rewrite decide_True by done.
      by rewrite (notificationsOf_lookup _ _ _ HF).
    + intros c Hc. destruct (H c) as (_ & _ & ->).
      rewrite decide_False by done. by rewrite app_nil_r.
    + eapply rejectRequest_absent; [done|done|exact HU1|exact HF1|].
      rewrite Hrf, includes_canon. apply bool_decide_eq_false_2.
      by rewrite (pendingOf_lookup _ _ _ HU1) in Hout.
Qed.

Lemma sendRequest_friends now u f (s : Store) U F :
  twelveBytes u → twelveBytes f →
  u ≠ f → s !! u = Some U → s !! f = Some F →
  f ∈ friends U ∨ u ∈ friends F →
  sendRequest now (canon u) (canon f) s = (s, AlreadyFriends).
Proof.
  intros Hu%twelveBytes_cast Hf%twelveBytes_cast Hne HU HF Hin.
  rewrite (sendRequest_found now _ _ u f s U F); try done.
  2:{ intros ?%canon_inj. done. }
  rewrite !includes_canon.
  destruct Hin as [H|H]; rewrite (bool_decide_eq_true_2 _ H); [done|].
  by rewrite orb_true_r.
Qed.

(** X7. [acceptRequest(u, f)] by [u] of a pending request from another
    user [f], both named canonically, is answered with 200; it appends each
    to the other's [friends] and changes no other user's document;
    afterwards a [sendRequest] between the two, in either direction and
    spelled canonically, is answered with [AlreadyFriends] and writes
    nothing. *)
Theorem accept_makes_friends now now' u f (s : Store) U F :
  twelveBytes u → twelveBytes f →
  u ≠ f → s !! u = Some U → s !! f = Some F → f ∈ friendRequests U →
  status (acceptRequest now (canon u) (canon f) s).2 = 200 ∧
  friendsOf (acceptRequest now (canon u) (canon f) s).1 u = friends U ++ [f] ∧
  friendsOf (acceptRequest now (canon u) (canon f) s).1 f = friends F ++ [u] ∧
  (∀ c, c ≠ u → c ≠ f →
     (acceptRequest now (canon u) (canon f) s).1 !! c = s !! c) ∧
  sendRequest now' (canon u) (canon f) (acceptRequest now (canon u) (canon f) s).1
    = ((acceptRequest now (canon u) (canon f) s).1, AlreadyFriends) ∧
  sendRequest now' (canon f) (canon u) (acceptRequest now (canon u) (canon f) s).1
    = ((acceptRequest now (canon u) (canon f) s).1, AlreadyFriends).
Proof.
  intros Hu Hf Hne HU HF Hin.
  rewrite (acceptRequest_pending now (canon u) u f s U F);
    [|by apply twelveBytes_cast|done..].
  cbn [fst snd status]. assert (f ≠ u) as Hne' by done.
  unfold friendsOf. rewrite lookup_insert_eq.
  rewrite (lookup_insert_ne _ f u) by done. rewrite lookup_insert_eq. cbn.
  split_and!; try done.
  - intros c Hcu Hcf. by rewrite !lookup_insert_ne.
  - eapply sendRequest_friends; [done|done|done| | |].
    + rewrite lookup_insert_ne by done. apply lookup_insert_eq.
    + apply lookup_insert_eq.
    + left. cbn. rewrite elem_of_app, list_elem_of_singleton. by right.
  - eapply sendRequest_friends; [done|done|done| | |].
    + apply lookup_insert_eq.
    + rewrite lookup_insert_ne by done. apply lookup_insert_eq.
    + left. cbn. rewrite elem_of_app, list_elem_of_singleton. by right.
Qed.

(** The arrays after the [acceptRequest] of a pending request, the
    requester named canonically. *)
Lemma acceptRequest_arrays now ru u f (s : Store) U F :
  castObjectId ru = Some u → twelveBytes f →
  s !! u = Some U → s !! f = Some F → f ∈ friendRequests U →
  (acceptRequest now ru (canon f) s).2 = mkResponse 200 "Friend request accepted." ∧
  ∀ c,
    friendsOf (acceptRequest now ru (canon f) s).1 c
      = (friendsOf s c ++ (if decide (c = u) then [f] else []))
        ++ (if decide (c = f) then [u] else []) ∧
    pendingOf (acceptRequest now ru (canon f) s).1 c
      = (if decide (c = u) then filter (λ id, id ≠ f) (pendingOf s c)
         else pendingOf s c) ∧
    notificationsOf (acceptRequest now ru (canon f) s).1 c
      = notificationsOf s c ++
        (if decide (c = f)
         then [mkNotification (username U +:+ " has accepted your friend request.") now]
         else []).
Proof.
  intros Hcu Hcf%twelveBytes_cast HU HF Hin.
  destruct (acceptRequest_effect now ru (canon f) s)
    as [(_ & _ & _ & Hr)
       |(Hst & u' & f' & U' & F' & Hcu' & Hcf' & _ & HU' & _ & _ & H)].
  - specialize (Hr _ _ _ _ Hcu Hcf HU HF).
    rewrite includes_canon, bool_decide_eq_true_2 in Hr; done.
  - assert (u' = u) as -> by congruence. assert (f' = f) as -> by congruence.
    assert (U' = U) as -> by congruence. done.
Qed.

(** The arrays after an [unfriend] that names two stored users
    canonically. *)
Lemma unfriend_arrays now x y (s : Store) X Y :
  twelveBytes x → twelveBytes y → x ≠ y → s !! x = Some X → s !! y = Some Y →
  (unfriend now (canon x) (canon y) s).2 = mkResponse 200 "Unfriended successfully." ∧
  ∀ c,
    friendsOf (unfriend now (canon x) (canon y) s).1 c
      = (let l := if decide (c = x) then filter (λ id, id ≠ y) (friendsOf s c)
                  else friendsOf s c in
         if decide (c = y) then filter (λ id, id ≠ x) l else l) ∧
    pendingOf (unfriend now (canon x) (canon y) s).1 c = pendingOf s c.
Proof.
  intros Hx%twelveBytes_cast Hy%twelveBytes_cast Hne HX HY.
  destruct (unfriend_effect now (canon x) (canon y) s)
    as [(_ & _ & _ & Hr)|(u & f & U & F & Hcu & Hcf & HU & HF & H & Hres)].
  { by destruct (Hr _ _ _ _ Hx Hy HX HY). }
  assert (u = x) as -> by congruence. assert (f = y) as -> by congruence.
  destruct Hres as [(Hst & _)|(_ & ? & _)]; [|done].
  split; [done|]. intros c. destruct (H c) as (-> & ->). cbn zeta.
  by rewrite !filter_canon.
Qed.

Lemma unfriend_after_accept now now' u f x y (s : Store) U F :
  twelveBytes u → twelveBytes f →
  u ≠ f → s !! u = Some U → s !! f = Some F → f ∈ friendRequests U →
  f ∉ friends U → u ∉ friends F →
  (x = u ∧ y = f) ∨ (x = f ∧ y = u) →
  status (unfriend now' (canon x) (canon y)
            (acceptRequest now (canon u) (canon f) s).1).2 = 200 ∧
  ∀ c, friendsOf (unfriend now' (canon x) (canon y)
                    (acceptRequest now (canon u) (canon f) s).1).1 c
       = friendsOf s c.
Proof.
  intros Hu Hf Hne HU HF Hin Hfu Huf Hxy.
  destruct (serve_lookup s (OpAccept now (canon u) (canon f)) u U HU) as (U1 & HU1 & _).
  destruct (serve_lookup s (OpAccept now (canon u) (canon f)) f F HF) as (F1 & HF1 & _).
  cbn [serve] in HU1, HF1.
  destruct (acceptRequest_arrays now (canon u) u f s U F) as [_ Hacc];
    [by apply twelveBytes_cast|done..|].
  assert (x ≠ y) as Hxy' by naive_solver.
  assert (twelveBytes x ∧ twelveBytes y) as [Hx Hy] by naive_solver.
  assert (∃ X Y, (acceptRequest now (canon u) (canon f) s).1 !! x = Some X ∧
                 (acceptRequest now (canon u) (canon f) s).1 !! y = Some Y)
    as (X & Y & HX & HY) by naive_solver.
  destruct (unfriend_arrays now' x y _ X Y Hx Hy Hxy' HX HY) as [-> H].
  split; [done|]. intros c. destruct (H c) as (-> & _).
  destruct (Hacc c) as (-> & _). cbn zeta.
  destruct Hxy as [[-> ->]|[-> ->]];
    repeat destruct (decide _); simplify_eq; rewrite ?app_nil_r;
    rewrite ?(friendsOf_lookup _ _ _ HU), ?(friendsOf_lookup _ _ _ HF);
    by rewrite ?filter_ne_snoc.
Qed.

(** X8. Accepting a request and then unfriending is a round trip on
    [friends], for requests that spell the users canonically: when [u] and
    [f] are two users neither of whom has the other in [friends], after
    [acceptRequest(u, f)] of a pending request an [unfriend] by either of
    them is answered with 200 and leaves every [friends] array as it was
    before the accept. *)
Theorem accept_then_unfriend_restores_friends now now' u f (s : Store) U F :
  twelveBytes u → twelveBytes f →
  u ≠ f → s !! u = Some U → s !! f = Some F → f ∈ friendRequests U →
  f ∉ friends U → u ∉ friends F →
  (status (unfriend now' (canon u) (canon f)
             (acceptRequest now (canon u) (canon f) s).1).2 = 200 ∧
   ∀ c, friendsOf (unfriend now' (canon u) (canon f)
                     (acceptRequest now (canon u) (canon f) s).1).1 c
        = friendsOf s c) ∧
  (status (unfriend now' (canon f) (canon u)
             (acceptRequest now (canon u) (canon f) s).1).2 = 200 ∧
   ∀ c, friendsOf (unfriend now' (canon f) (canon u)
                     (acceptRequest now (canon u) (canon f) s).1).1 c
        = friendsOf s c).
Proof.
  intros. split; eapply unfriend_after_accept; eauto.
Qed.

(** X9. Sending a request and having it rejected is a round trip on the
    pending requests, for requests that spell the users canonically: when
    [u] and [f] are two users who are not friends and [u] has no request
    pending with [f], [sendRequest(u, f)] and then [rejectRequest(f, u)] are
    both answered with 200, every pending-request array and every [friends]
    array is as before, and each of the two has exactly one more
    notification. *)
Theorem request_then_reject_restores_pending now now' u f (s : Store) U F :
  twelveBytes u → twelveBytes f →
  u ≠ f → s !! u = Some U → s !! f = Some F →
  f ∉ friends U → u ∉ friends F → u ∉ friendRequests F →
  status (sendRequest now (canon u) (canon f) s).2 = 200 ∧
  status (rejectRequest now' (canon f) (canon u)
            (sendRequest now (canon u) (canon f) s).1).2 = 200 ∧
  (∀ c, pendingOf (rejectRequest now' (canon f) (canon u)
                     (sendRequest now (canon u) (canon f) s).1).1 c
        = pendingOf s c) ∧
  (∀ c, friendsOf (rejectRequest now' (canon f) (canon u)
                     (sendRequest now (canon u) (canon f) s).1).1 c
        = friendsOf s c) ∧
  notificationsOf (rejectRequest now' (canon f) (canon u)
                     (sendRequest now (canon u) (canon f) s).1).1 f
    = notifications F ++
      [mkNotification (username U +:+ " has sent you a friend request.") now] ∧
  notificationsOf (rejectRequest now' (canon f) (canon u)
                     (sendRequest now (canon u) (canon f) s).1).1 u
    = notifications U ++
      [mkNotification (username F +:+ " has rejected your friend request.") now'].
Proof.
  intros Hu%twelveBytes_cast Hf%twelveBytes_cast Hne HU HF Hfu Huf Hp.
  assert (f ≠ u) as Hne' by done.
  assert (status (sendRequest now (canon u) (canon f) s).2 = 200) as Hst.
  { rewrite (sendRequest_found now _ _ u f s U F); try done.
    2:{ intros ?%canon_inj. done. }
    rewrite !includes_canon, !bool_decide_eq_false_2 by done. done. }
  destruct (serve_lookup s (OpRequest now (canon u) (canon f)) u U HU) as (U1 & HU1 & _).
  destruct (serve_lookup s (OpRequest now (canon u) (canon f)) f F HF) as (F1 & HF1 & HFp).
  cbn [serve] in HU1, HF1.
  destruct (sendRequest_arrays now (canon u) (canon f) s Hst)
    as (u' & f' & U' & F' & Hcu' & Hcf' & _ & HU' & HF' & _ & _ & _ & _ & H1).
  assert (u' = u) as -> by congruence. assert (f' = f) as -> by congruence.
  assert (U' = U) as -> by congruence. clear F' HF'.
  split; [done|].
  destruct (rejectRequest_effect now' (canon f) (canon u)
              (sendRequest now (canon u) (canon f) s).1)
    as [(_ & _ & _ & Hr)
       |(Hst2 & f2 & u2 & F2 & U2 & Hcf2 & Hcu2 & _ & HF2 & HU2 & _ & H2)].
  - specialize (Hr _ _ _ _ Hf Hu HF1 HU1).
    rewrite includes_canon in Hr. apply bool_decide_eq_false_1 in Hr.
    exfalso. apply Hr. rewrite <- (pendingOf_lookup _ _ _ HF1).
    destruct (H1 f) as (_ & -> & _).
    destruct (decide (f = f)); [|done].
    rewrite elem_of_app, list_elem_of_singleton. by right.
  - assert (f2 = f) as -> by congruence. assert (u2 = u) as -> by congruence.
    assert (F2 = F1) as -> by congruence.
    split; [by rewrite Hst2|]. split_and!.
    + intros c. destruct (H2 c) as (_ & -> & _).
      destruct (H1 c) as (_ & -> & _).
      destruct (decide (c = f)) as [->|]; [|by rewrite app_nil_r].
      rewrite (pendingOf_lookup _ _ _ HF). by rewrite filter_ne_snoc.
    + intros c. destruct (H2 c) as (-> & _). by destruct (H1 c) as (-> & _).
    + destruct (H2 f) as (_ & _ & ->). destruct (H1 f) as (_ & _ & ->).
      destruct (decide (f = f)); [|done]. destruct (decide (f = u)); [done|].
      by rewrite app_nil_r, (notificationsOf_lookup _ _ _ HF).
    + destruct (H2 u) as (_ & _ & ->). destruct (H1 u) as (_ & _ & ->).
      destruct (decide (u = f)); [done|]. destruct (decide (u = u)); [|done].
      rewrite (profile_username _ _ HFp).
      by rewrite app_nil_r, (notificationsOf_lookup _ _ _ HU).
Qed.

(** X21. After [unfriend(u, f)] on two different stored users, spelled
    canonically, neither is in the other's [friends], however often they
    were before, and a [sendRequest(u, f)] spelled canonically is no longer
    refused as [AlreadyFriends]: it is answered with 200, or with
    [DuplicateRequest] when a request from [u] was left pending with
    [f]. *)
Theorem unfriended_can_ask_again now now' u f (s : Store) U F :
  twelveBytes u → twelveBytes f →
  u ≠ f → s !! u = Some U → s !! f = Some F →
  (f ∉ friendsOf (unfriend now (canon u) (canon f) s).1 u) ∧
  (u ∉ friendsOf (unfriend now (canon u) (canon f) s).1 f) ∧
  (u ∈ friendRequests F →
   sendRequest now' (canon u) (canon f) (unfriend now (canon u) (canon f) s).1
   = ((unfriend now (canon u) (canon f) s).1, DuplicateRequest)) ∧
  (u ∉ friendRequests F →
   status (sendRequest now' (canon u) (canon f)
             (unfriend now (canon u) (canon f) s).1).2 = 200).
Proof.
  intros Hu Hf Hne HU HF. assert (f ≠ u) as Hne' by done.
  destruct (serve_lookup s (OpUnfriend now (canon u) (canon f)) u U HU) as (U1 & HU1 & _).
  destruct (serve_lookup s (OpUnfriend now (canon u) (canon f)) f F HF) as (F1 & HF1 & _).
  cbn [serve] in HU1, HF1.
  destruct (unfriend_arrays now u f s U F Hu Hf Hne HU HF) as [_ H].
  assert (f ∉ friendsOf (unfriend now (canon u) (canon f) s).1 u) as Hfu.
  { destruct (H u) as (-> & _). cbn zeta.
    repeat destruct (decide _); try done.
    rewrite list_elem_of_filter. naive_solver. }
  assert (u ∉ friendsOf (unfriend now (canon u) (canon f) s).1 f) as Huf.
  { destruct (H f) as (-> & _). cbn zeta.
    repeat destruct (decide _); try done.
    rewrite list_elem_of_filter. naive_solver. }
  assert (friendRequests F1 = friendRequests F) as Hp.
  { destruct (H f) as (_ & Hp).
    by rewrite (pendingOf_lookup _ _ _ HF1), (pendingOf_lookup _ _ _ HF) in Hp. }
  split; [done|]. split; [done|].
  rewrite (friendsOf_lookup _ _ _ HU1) in Hfu.
  rewrite (friendsOf_lookup _ _ _ HF1) in Huf.
  split.
  - intros Hin.
    rewrite (sendRequest_pending now' u f _ U1 F1) by (by rewrite ?Hp).
    rewrite decide_False by naive_solver. done.
  - intros Hin.
    rewrite (sendRequest_found now' _ _ u f _ U1 F1);
      [|by apply twelveBytes_cast|by apply twelveBytes_cast
       |by intros ?%canon_inj|done|done].
    rewrite !includes_canon, !bool_decide_eq_false_2 by (by rewrite ?Hp). done.
Qed.

(** *** Notifications *)

Lemma serve_notifications_app (s : Store) (o : Op) (c : ObjectId) :
  ∃ l, notificationsOf (serve s o).1 c = notificationsOf s c ++ l ∧
       length l = if decide (status (serve s o).2 = 200 ∧
                             castObjectId (op_friendId o) = Some c)
                  then 1 else 0.
Proof.
  destruct o as [now ru rf|now ru rf|now ru rf|now ru rf]; cbn [serve op_friendId].
  - destruct (sendRequest_effect now ru rf s) as [(-> & Hst & _)|H].
    + exists []. rewrite app_nil_r, decide_False by naive_solver. done.
    + assert (status (sendRequest now ru rf s).2 = 200) as Hst.
      { by destruct H as (? & ? & ? & ? & _ & _ & _ & _ & _ & _ & _ & _ & ->). }
      destruct (sendRequest_arrays now ru rf s Hst)
        as (u & f & U & F & _ & Hcf & _ & _ & _ & _ & _ & _ & _ & H1).
      destruct (H1 c) as (_ & _ & ->). eexists. split; [done|].
      destruct (decide (c = f)) as [->|].
      * by rewrite decide_True.
      * rewrite decide_False; [done|]. intros [_ ?]. congruence.
  - destruct (acceptRequest_effect now ru rf s)
      as [(-> & Hst & _)|(Hst & u & f & U & F & _ & Hcf & _ & _ & _ & _ & H)].
    + exists []. rewrite app_nil_r, decide_False by naive_solver. done.
    + destruct (H c) as (_ & _ & ->). eexists. split; [done|]. rewrite Hst.
      destruct (decide (c = f)) as [->|].
      * by rewrite decide_True.
      * rewrite decide_False; [done|]. intros [_ ?]. congruence.
  - destruct (rejectRequest_effect now ru rf s)
      as [(-> & Hst & _)|(Hst & u & f & U & F & _ & Hcf & _ & _ & _ & _ & H)].
    + exists []. rewrite app_nil_r, decide_False by naive_solver. done.
    + destruct (H c) as (_ & _ & ->). eexists. split; [done|]. rewrite Hst.
      destruct (decide (c = f)) as [->|].
      * by rewrite decide_True.
      * rewrite decide_False; [done|]. intros [_ ?]. congruence.
  - destruct (unfriend_effect now ru rf s)
      as [(-> & Hst & _)
         |(u & f & U & F & _ & Hcf & _ & _ & _ & [(Hst & H)|(Hst & _ & _ & _ & _ & H)])].
    + exists []. rewrite app_nil_r, decide_False by naive_solver. done.
    + rewrite H. eexists. split; [done|]. rewrite Hst.
      destruct (decide (c = f)) as [->|].
      * by rewrite decide_True.
      * rewrite decide_False; [done|]. intros [_ ?]. congruence.
    + rewrite H. exists []. rewrite app_nil_r, Hst.
      rewrite decide_False; [done|]. by intros [? _].
Qed.

(** X13. A workflow request that is answered with 200 appends exactly one
    notification, to the user its [friendId] is cast to, and none to anybody
    else; a request with any other answer appends none at all.  Nothing is
    ever removed or changed. *)
Theorem one_notification_per_success (s : Store) (o : Op) (c : ObjectId) :
  ∃ l, notificationsOf (serve s o).1 c = notificationsOf s c ++ l ∧
       length l = if decide (status (serve s o).2 = 200 ∧
                             castObjectId (op_friendId o) = Some c)
                  then 1 else 0.
Proof. apply serve_notifications_app. Qed.

Lemma run_notifications_app (s : Store) (ops : list Op) (c : ObjectId) :
  ∃ l, notificationsOf (run s ops) c = notificationsOf s c ++ l.
Proof.
  revert s. induction ops as [|o ops IH]; intros s.
  - exists []. by rewrite app_nil_r.
  - destruct (IH (serve s o).1) as (l2 & Hl2).
    destruct (serve_notifications_app s o c) as (l1 & Hl1 & _).
    exists (l1 ++ l2).
    change (run s (o :: ops)) with (run (serve s o).1 ops).
    by rewrite Hl2, Hl1, <- app_assoc.
Qed.

(** * Requests on different pairs of users *)

(** [save] on two collections that hold the same document for the copy. *)
Lemma save_local (s1 s2 : Store) d :
  s1 !! _id d = s2 !! _id d →
  match save s1 d, save s2 d with
  | Some s1', Some s2' => ∀ c, s1 !! c = s2 !! c → s1' !! c = s2' !! c
  | None, None => True
  | _, _ => False
  end.
Proof.
  intros Hd. unfold save. destruct (unmodified d); [done|]. rewrite <- Hd.
  destruct (s1 !! _id d) as [db|]; [|done].
  destruct (_ && _); [done|]. intros c Hc. rewrite !lookup_insert.
  by destruct (decide (_id d = c)).
Qed.

Lemma two_saves_local (s1 s2 : Store) d1 d2 (r1 r2 r3 : Response) :
  s1 !! _id d1 = s2 !! _id d1 → s1 !! _id d2 = s2 !! _id d2 →
  let out (s : Store) :=
    match save s d1 with
    | None => (s, r1)
    | Some s' =>
        match save s' d2 with
        | None => (s', r2)
        | Some s'' => (s'', r3)
        end
    end in
  (out s1).2 = (out s2).2 ∧
  ∀ c, s1 !! c = s2 !! c → (out s1).1 !! c = (out s2).1 !! c.
Proof.
  intros H1 H2 out. subst out. cbn beta.
  pose proof (save_local s1 s2 d1 H1) as L1.
  destruct (save s1 d1) as [s1'|], (save s2 d1) as [s2'|]; try done.
  pose proof (save_local s1' s2' d2 (L1 _ H2)) as L2.
  destruct (save s1' d2) as [s1''|], (save s2' d2) as [s2''|]; try done.
  all: split; [done|]; intros c Hc; cbn; auto.
Qed.

(** The answer to a request, and what it writes, depend only on the
    documents of the users it names. *)
Lemma serve_local (s1 s2 : Store) (o : Op) :
  (∀ a, a ∈ op_users o → s1 !! a = s2 !! a) →
  (serve s1 o).2 = (serve s2 o).2 ∧
  ∀ c, s1 !! c = s2 !! c → (serve s1 o).1 !! c = (serve s2 o).1 !! c.
Proof.
  destruct o as [now ru rf|now ru rf|now ru rf|now ru rf]; cbn [serve]; intros Ho.
  - unfold sendRequest, findById.
    destruct (isValid ru); [|done]. destruct (isValid rf); [|done]. cbn [negb orb].
    destruct (strictEq ru rf); [done|].
    destruct (castObjectId ru) as [u|] eqn:Hcu; [|done].
    destruct (castObjectId rf) as [f|] eqn:Hcf; [|done].
    cbn [fmap option_fmap option_map].
    rewrite (op_users_cast _ u f) in Ho by done.
    assert (s1 !! u = s2 !! u) as Hu by (apply Ho; set_solver).
    assert (s1 !! f = s2 !! f) as Hf by (apply Ho; set_solver).
    rewrite <- Hu, <- Hf.
    destruct (s1 !! u) as [U|] eqn:EU; [|done].
    destruct (s1 !! f) as [F|] eqn:EF; [|done].
    cbn [fmap option_fmap option_map cur].
    destruct (_ || _); [done|]. destruct (includes _ _); [done|].
    unfold friendRequests_push. rewrite Hcu. cbn [fmap option_fmap option_map].
    match goal with |- context [save s1 ?d] =>
      pose proof (save_local s1 s2 d) as L end.
    simpl in L. rewrite EF in L. specialize (L Hf).
    destruct (save s1 _) as [s1'|], (save s2 _) as [s2'|]; done.
  - unfold acceptRequest, findById.
    destruct (isValid ru); [|done]. destruct (isValid rf); [|done]. cbn [negb orb].
    destruct (castObjectId ru) as [u|] eqn:Hcu; [|done].
    destruct (castObjectId rf) as [f|] eqn:Hcf; [|done].
    cbn [fmap option_fmap option_map].
    rewrite (op_users_cast _ u f) in Ho by done.
    assert (s1 !! u = s2 !! u) as Hu by (apply Ho; set_solver).
    assert (s1 !! f = s2 !! f) as Hf by (apply Ho; set_solver).
    rewrite <- Hu, <- Hf.
    destruct (s1 !! u) as [U|] eqn:EU; [|done].
    destruct (s1 !! f) as [F|] eqn:EF; [|done].
    cbn [fmap option_fmap option_map cur].
    destruct (negb _); [done|].
    unfold friends_push. rewrite Hcu, Hcf. cbn [fmap option_fmap option_map].
    apply two_saves_local; doc_unfold; repeat case_decide; cbn; congruence.
  - unfold rejectRequest, findById.
    destruct (isValid ru); [|done]. destruct (isValid rf); [|done]. cbn [negb orb].
    destruct (castObjectId ru) as [u|] eqn:Hcu; [|done].
    destruct (castObjectId rf) as [f|] eqn:Hcf; [|done].
    cbn [fmap option_fmap option_map].
    rewrite (op_users_cast _ u f) in Ho by done.
    assert (s1 !! u = s2 !! u) as Hu by (apply Ho; set_solver).
    assert (s1 !! f = s2 !! f) as Hf by (apply Ho; set_solver).
    rewrite <- Hu, <- Hf.
    destruct (s1 !! u) as [U|] eqn:EU; [|done].
    destruct (s1 !! f) as [F|] eqn:EF; [|done].
    cbn [fmap option_fmap option_map cur].
    destruct (negb _); [done|].
    apply two_saves_local; doc_unfold; repeat case_decide; cbn; congruence.
  - unfold unfriend, findById.
    destruct (isValid ru); [|done]. destruct (isValid rf); [|done]. cbn [negb orb].
    destruct (castObjectId ru) as [u|] eqn:Hcu; [|done].
    destruct (castObjectId rf) as [f|] eqn:Hcf; [|done].
    cbn [fmap option_fmap option_map].
    rewrite (op_users_cast _ u f) in Ho by done.
    assert (s1 !! u = s2 !! u) as Hu by (apply Ho; set_solver).
    assert (s1 !! f = s2 !! f) as Hf by (apply Ho; set_solver).
    rewrite <- Hu, <- Hf.
    destruct (s1 !! u) as [U|] eqn:EU; [|done].
    destruct (s1 !! f) as [F|] eqn:EF; [|done].
    cbn [fmap option_fmap option_map cur].
    apply two_saves_local; doc_unfold; repeat case_decide; cbn; congruence.
Qed.

(** X20. Two workflow requests that name no user in common can be served
    in either order: each gets the answer it would get alone, and the
    collection is the same after both. *)
Theorem disjoint_requests_commute (s : Store) (o1 o2 : Op) :
  disjoint_ops o1 o2 →
  (serve (serve s o1).1 o2).2 = (serve s o2).2 ∧
  (serve (serve s o2).1 o1).2 = (serve s o1).2 ∧
  (serve (serve s o1).1 o2).1 = (serve (serve s o2).1 o1).1.
Proof.
  intros Hd.
  assert (∀ a, a ∈ op_users o2 → a ∉ op_users o1) as Hd'.
  { intros a H2 H1. by apply (Hd a). }
  destruct (serve_local (serve s o1).1 s o2) as [R2 L2].
  { intros a Ha. apply serve_other. by apply Hd'. }
  destruct (serve_local (serve s o2).1 s o1) as [R1 L1].
  { intros a Ha. apply serve_other. by apply Hd. }
  split_and!; [done|done|].
  apply map_eq. intros c.
  destruct (decide (c ∈ op_users o1)) as [Hc|Hc].
  - rewrite (serve_other _ o2) by (by apply Hd).
    symmetry. apply L1. apply serve_other. by apply Hd.
  - rewrite (serve_other _ o1) by done.
    apply L2. by apply serve_other.
Qed.

(** * Properties of the listing routes *)

Lemma isValid_string_cast (t : string) (u : ObjectId) :
  castObjectId (JString t) = Some u → negb (isValid (JString t)) = false.
Proof. intros H. by rewrite (castObjectId_isValid _ _ H). Qed.

Lemma listFriendRequests_found (s : Store) (t : string) u U :
  castObjectId (JString t) = Some u → s !! u = Some U →
  listFriendRequests s t = inr (selectUsername (populate s (friendRequests U))).
Proof.
  intros Hc HU. unfold listFriendRequests.
  by rewrite (isValid_string_cast _ _ Hc), Hc, HU.
Qed.

Lemma listFriends_found (s : Store) (t : string) u U :
  castObjectId (JString t) = Some u → s !! u = Some U →
  listFriends s t = inr (selectUsername (populate s (friends U))).
Proof.
  intros Hc HU. unfold listFriends.
  by rewrite (isValid_string_cast _ _ Hc), Hc, HU.
Qed.

(** X10. [GET /:userId/users], for a segment that spells an identifier,
    lists, once each and with their usernames, exactly the stored users
    whose identifier is not that one; it does not look the user up, so for
    an identifier that is not stored it lists every user. *)
Theorem listUsers_lists_the_others (s : Store) (t : string) (u : ObjectId) :
  castObjectId (JString t) = Some u →
  ∃ l, listUsers s t = inr l ∧
    NoDup l.*1 ∧
    (∀ id name, (id, name) ∈ l ↔
                id ≠ u ∧ ∃ V, s !! id = Some V ∧ username V = name) ∧
    (s !! u = None → length l = size s).
Proof.
  intros Hc. unfold listUsers. rewrite (isValid_string_cast _ _ Hc), Hc.
  eexists. split; [done|]. unfold selectUsername. split_and!.
  - rewrite <- list_fmap_compose.
    apply (sublist_NoDup _ (map_to_list s).*1); [apply NoDup_fst_map_to_list|].
    apply (fmap_sublist fst), sublist_filter.
  - intros id name. rewrite list_elem_of_fmap. split.
    + intros ([id' V] & [= -> ->] & Hin).
      apply list_elem_of_filter in Hin as [Hne Hin].
      apply elem_of_map_to_list in Hin. eauto.
    + intros (Hne & V & HV & <-). exists (id, V). split; [done|].
      apply list_elem_of_filter. split; [done|]. by apply elem_of_map_to_list.
  - intros Hu. rewrite length_fmap.
    rewrite filter_all; [by rewrite length_map_to_list|].
    intros [id V] Hin%elem_of_map_to_list. cbn. intros ->. congruence.
Qed.

Lemma populate_cons (s : Store) f ids :
  populate s (f :: ids) =
    match s !! f with
    | Some F => (f, F) :: populate s ids
    | None => populate s ids
    end.
Proof. unfold populate. cbn [omap list_omap]. by destruct (s !! f). Qed.

Lemma populate_app (s : Store) l1 l2 :
  populate s (l1 ++ l2) = populate s l1 ++ populate s l2.
Proof.
  induction l1 as [|x l1 IH]; [done|].
  cbn [app]. rewrite !populate_cons, IH. by destruct (s !! x).
Qed.

Lemma selectUsername_app (l1 l2 : list (ObjectId * User)) :
  selectUsername (l1 ++ l2) = selectUsername l1 ++ selectUsername l2.
Proof. unfold selectUsername. apply fmap_app. Qed.

(** The listings read only the usernames of the documents they resolve. *)
Lemma selectUsername_populate_ext (s s' : Store) ids :
  (∀ a, profile <$> s' !! a = profile <$> s !! a) →
  selectUsername (populate s' ids) = selectUsername (populate s ids).
Proof.
  intros Hp. unfold selectUsername.
  induction ids as [|x ids IH]; [done|].
  rewrite !populate_cons. specialize (Hp x).
  destruct (s' !! x) as [V'|], (s !! x) as [V|]; try done.
  apply (inj Some), profile_username in Hp.
  rewrite !fmap_cons, IH. cbn [fst snd]. by rewrite Hp.
Qed.

Lemma populate_ids (s : Store) ids :
  (populate s ids).*1 = filter (λ id, is_Some (s !! id)) ids.
Proof.
  unfold populate. induction ids as [|id ids IH]; [done|].
  rewrite filter_cons. cbn [omap list_omap].
  destruct (s !! id) as [V|] eqn:E; cbn [fmap option_fmap option_map].
  - rewrite decide_True by eauto. rewrite fmap_cons. cbn [fst]. by rewrite IH.
  - rewrite decide_False by (by intros [? ?]). done.
Qed.

(** X11. A request that [sendRequest] answers with 200 shows at the end of
    the target's [GET /:userId/friendRequests] listing, under the
    requester's username; the entries listed before are listed unchanged.
    The segment of the URL is any spelling of the target. *)
Theorem request_is_listed now ru rf (t : string) (s : Store) l :
  status (sendRequest now ru rf s).2 = 200 →
  castObjectId (JString t) = castObjectId rf →
  listFriendRequests s t = inr l →
  ∃ u U, castObjectId ru = Some u ∧ s !! u = Some U ∧
       listFriendRequests (sendRequest now ru rf s).1 t
       = inr (l ++ [(u, username U)]).
Proof.
  intros Hst Ht Hl.
  destruct (sendRequest_arrays now ru rf s Hst)
    as (u & f & U & F & Hcu & Hcf & _ & HU & HF & _ & _ & _ & _ & H).
  exists u, U. split; [done|]. split; [done|].
  rewrite Hcf in Ht.
  destruct (serve_lookup s (OpRequest now ru rf) f F HF) as (F1 & HF1 & _).
  destruct (serve_lookup s (OpRequest now ru rf) u U HU) as (U1 & HU1 & HUp).
  cbn [serve] in HF1, HU1.
  rewrite (listFriendRequests_found _ _ _ _ Ht HF) in Hl.
  rewrite (listFriendRequests_found _ _ _ _ Ht HF1).
  injection Hl as <-. f_equal.
  destruct (H f) as (_ & Hp & _).
  rewrite (pendingOf_lookup _ _ _ HF1), (pendingOf_lookup _ _ _ HF) in Hp.
  rewrite Hp, decide_True by done.
  rewrite populate_app, selectUsername_app.
  f_equal.
  - apply (selectUsername_populate_ext s).
    intros a. apply (serve_profile s (OpRequest now ru rf)).
  - rewrite populate_cons, HU1. cbn. by rewrite (profile_username _ _ HUp).
Qed.

(** X12. After [acceptRequest(u, f)] of a pending request between two
    different users, the request spelling [f] canonically, each of them is
    the last entry of the other's [GET /:userId/friends] listing, under
    their username, after the entries listed before; and [f] is no longer in
    [u]'s [GET /:userId/friendRequests] listing.  The segments of the URLs
    are any spellings of the two. *)
Theorem accepted_friend_is_listed now ru (tu tf : string) u f (s : Store) U F lu lf :
  castObjectId ru = Some u → twelveBytes f →
  castObjectId (JString tu) = Some u → castObjectId (JString tf) = Some f →
  u ≠ f → s !! u = Some U → s !! f = Some F → f ∈ friendRequests U →
  listFriends s tu = inr lu → listFriends s tf = inr lf →
  listFriends (acceptRequest now ru (canon f) s).1 tu
    = inr (lu ++ [(f, username F)]) ∧
  listFriends (acceptRequest now ru (canon f) s).1 tf
    = inr (lf ++ [(u, username U)]) ∧
  ∃ lr, listFriendRequests (acceptRequest now ru (canon f) s).1 tu = inr lr ∧
        f ∉ lr.*1.
Proof.
  intros Hcu Hf Htu Htf Hne HU HF Hin Hlu Hlf. assert (f ≠ u) as Hne' by done.
  assert (∀ ids, selectUsername (populate (acceptRequest now ru (canon f) s).1 ids)
                 = selectUsername (populate s ids)) as Hext.
  { intros ids. apply selectUsername_populate_ext.
    intros a. apply (serve_profile s (OpAccept now ru (canon f))). }
  revert Hext. rewrite (acceptRequest_pending now ru u f s U F) by done.
  cbn [fst]. intros Hext.
  rewrite (listFriends_found _ _ _ _ Htu HU) in Hlu.
  rewrite (listFriends_found _ _ _ _ Htf HF) in Hlf.
  injection Hlu as <-. injection Hlf as <-.
  erewrite (listFriends_found _ tu u); [|done|].
  2:{ rewrite lookup_insert_ne by done. apply lookup_insert_eq. }
  erewrite (listFriends_found _ tf f); [|done|apply lookup_insert_eq].
  erewrite (listFriendRequests_found _ tu u); [|done|].
  2:{ rewrite lookup_insert_ne by done. apply lookup_insert_eq. }
  cbn [friends friendRequests].
  rewrite !populate_app, !selectUsername_app, !Hext. split_and!.
  - do 2 f_equal. by rewrite populate_cons, HF.
  - do 2 f_equal. by rewrite populate_cons, HU.
  - eexists. split; [done|]. unfold selectUsername.
    rewrite <- list_fmap_compose.
    change (fst ∘ (λ p : ObjectId * User, (p.1, username p.2))) with (@fst ObjectId User).
    rewrite populate_ids, !list_elem_of_filter. naive_solver.
Qed.

(** X14. What [GET /:userId/notifications] lists for a user is, after any
    sequence of workflow requests, still listed, in the same order, before
    whatever was added; and a user the route answers 404 for stays
    unknown. *)
Theorem notification_listing_grows (s : Store) (ops : list Op) (t : string) :
  (∀ l, listNotifications s t = inr l →
        ∃ l', listNotifications (run s ops) t = inr (l ++ l')) ∧
  (listNotifications s t = inl userNotFound →
   listNotifications (run s ops) t = inl userNotFound).
Proof.
  unfold listNotifications.
  destruct (negb (isValid (JString t))); [done|].
  destruct (castObjectId (JString t)) as [a|]; [|done].
  pose proof (run_profile s ops a) as Hp.
  destruct (run_notifications_app s ops a) as (l' & Hl').
  unfold notificationsOf in Hl'.
  destruct (s !! a) as [U|], (run s ops !! a) as [U'|]; try done; split.
  - intros l [= <-]. exists l'. cbn in Hl'. by rewrite Hl'.
  - done.
Qed.

(** * Properties of the recommendation route *)

(** *** The [recommendations] object *)

Lemma rec_get_set (r : Recs) k v j :
  rec_get (rec_set r k v) j = if decide (k = j) then Some v else rec_get r j.
Proof.
  induction r as [|[k' w] r IH]; simpl.
  - by destruct (decide (k = j)).
  - destruct (decide (k' = k)) as [->|Hk]; simpl.
    + by destruct (decide (k = j)).
    + destruct (decide (k' = j)) as [->|Hj]; [|done].
      by rewrite decide_False by done.
Qed.

Lemma rec_get_incr (r : Recs) k j :
  rec_get (rec_incr r k) j =
    if decide (k = j) then incrMutual <$> rec_get r j else rec_get r j.
Proof.
  induction r as [|[k' w] r IH]; simpl.
  - by destruct (decide (k = j)).
  - destruct (decide (k' = k)) as [->|Hk]; simpl.
    + by destruct (decide (k = j)).
    + destruct (decide (k' = j)) as [->|Hj]; [|done].
      by rewrite decide_False by done.
Qed.

Lemma rec_get_is_Some (r : Recs) k : is_Some (rec_get r k) ↔ k ∈ r.*1.
Proof.
  induction r as [|[k' w] r IH]; simpl.
  - rewrite elem_of_nil. split; [by intros [? ?]|done].
  - rewrite elem_of_cons. destruct (decide (k' = k)) as [->|Hk].
    + split; eauto.
    + rewrite IH. naive_solver.
Qed.

Lemma rec_get_None (r : Recs) k : rec_get r k = None ↔ k ∉ r.*1.
Proof. rewrite <- rec_get_is_Some, eq_None_not_Some. done. Qed.

Lemma rec_set_keys (r : Recs) k v :
  (rec_set r k v).*1 = if decide (k ∈ r.*1) then r.*1 else r.*1 ++ [k].
Proof.
  induction r as [|[k' w] r IH]; cbn [rec_set].
  - destruct (decide (k ∈ _)) as [Hin|Hin]; [|done]. by apply elem_of_nil in Hin.
  - rewrite fmap_cons. cbn [fst].
    destruct (decide (k' = k)) as [->|Hk].
    + rewrite decide_True; [done|]. apply list_elem_of_here.
    + rewrite fmap_cons, IH. cbn [fst].
      destruct (decide (k ∈ r.*1)) as [Hin|Hin].
      * rewrite decide_True; [done|]. by apply list_elem_of_further.
      * rewrite decide_False; [done|]. rewrite elem_of_cons. naive_solver.
Qed.

Lemma rec_incr_keys (r : Recs) k : (rec_incr r k).*1 = r.*1.
Proof.
  induction r as [|[k' w] r IH]; cbn [rec_incr]; [done|].
  destruct (decide (k' = k)); rewrite !fmap_cons; cbn [fst]; [done|].
  by rewrite IH.
Qed.

Lemma rec_set_NoDup (r : Recs) k v : NoDup r.*1 → NoDup (rec_set r k v).*1.
Proof.
  intros Hr. rewrite rec_set_keys. destruct (decide (k ∈ r.*1)); [done|].
  apply NoDup_app. split_and!; [done| |apply NoDup_singleton].
  intros x Hx ->%list_elem_of_singleton. done.
Qed.

(** With distinct keys, the entries are the graph of [rec_get]. *)
Lemma rec_get_elem (r : Recs) k v :
  NoDup r.*1 → (k, v) ∈ r ↔ rec_get r k = Some v.
Proof.
  induction r as [|[k' w] r IH]; simpl; intros Hr.
  - rewrite elem_of_nil. naive_solver.
  - apply NoDup_cons in Hr as [Hk' Hr]. rewrite elem_of_cons.
    destruct (decide (k' = k)) as [->|Hk].
    + split; [|naive_solver]. intros [?|Hin]; [naive_solver|].
      exfalso. apply Hk'. apply list_elem_of_fmap. by exists (k, v).
    + rewrite <- IH by done. naive_solver.
Qed.

(** *** Step 1 *)

Lemma interestPass_cons user fids pf cius (r : Recs) :
  interestPass user fids (pf :: cius) r =
    interestPass user fids cius
      (if includesString fids pf.1 || bool_decide (is_Some (rec_get r pf.1)) then r
       else rec_set r pf.1
              (Candidate.mk (username pf.2) (countCommon user pf.2) 0)).
Proof. reflexivity. Qed.

Lemma interestPass_get user fids cius (r : Recs) k :
  rec_get (interestPass user fids cius r) k =
    match rec_get r k with
    | Some v => Some v
    | None =>
        if decide (k ∈ fids) then None
        else (λ p, Candidate.mk (username p) (countCommon user p) 0)
             <$> (list_to_map cius : gmap ObjectId User) !! k
    end.
Proof.
  revert r. induction cius as [|[k0 p0] cius IH]; intros r.
  - cbn. destruct (rec_get r k); [done|]. by destruct (decide _).
  - rewrite interestPass_cons, IH. cbn [fst snd list_to_map foldr uncurry].
    unfold includesString. rewrite lookup_insert.
    destruct (decide (k0 ∈ fids)) as [Hf|Hf].
    + rewrite (bool_decide_eq_true_2 _ Hf). cbn [orb].
      destruct (rec_get r k); [done|].
      destruct (decide (k ∈ fids)) as [|Hk]; [done|].
      rewrite decide_False; [done|]. by intros ->.
    + rewrite (bool_decide_eq_false_2 _ Hf). cbn [orb].
      destruct (rec_get r k0) as [v0|] eqn:E0.
      * rewrite bool_decide_eq_true_2 by eauto.
        destruct (rec_get r k) as [v|] eqn:E; [done|].
        destruct (decide (k ∈ fids)); [done|].
        rewrite decide_False; [done|]. intros ->. congruence.
      * rewrite bool_decide_eq_false_2 by (by intros [? ?]).
        rewrite rec_get_set.
        destruct (decide (k0 = k)) as [->|Hk]; [|done].
        rewrite E0. by rewrite decide_False.
Qed.

Lemma interestPass_NoDup user fids cius (r : Recs) :
  NoDup r.*1 → NoDup (interestPass user fids cius r).*1.
Proof.
  revert r. induction cius as [|pf cius IH]; intros r Hr; [done|].
  rewrite interestPass_cons. apply IH.
  destruct (_ || _); [done|]. by apply rec_set_NoDup.
Qed.

(** *** Step 2 *)

Lemma visitMutual_get userId fids (r : Recs) j p k :
  rec_get (visitMutual userId fids r (j, p)) k =
    if decide (toString j = userId ∨ j ∈ fids) then rec_get r k
    else if decide (j = k)
         then Some (incrMutual
                      (default (Candidate.mk (username p) 0 0) (rec_get r j)))
         else rec_get r k.
Proof.
  unfold visitMutual, includesString. cbn [fst snd].
  destruct (decide (toString j = userId ∨ j ∈ fids)) as [[Hj|Hf]|Hn].
  - by rewrite (bool_decide_eq_true_2 _ Hj).
  - rewrite (bool_decide_eq_true_2 _ Hf). by rewrite orb_true_r.
  - rewrite !bool_decide_eq_false_2 by naive_solver. cbn [orb].
    rewrite rec_get_incr.
    destruct (rec_get r j) as [v|] eqn:E.
    + rewrite bool_decide_eq_true_2 by eauto.
      destruct (decide (j = k)) as [->|]; [|done]. by rewrite E.
    + rewrite bool_decide_eq_false_2 by (by intros [? ?]).
      rewrite rec_get_set.
      destruct (decide (j = k)) as [->|]; [|done]. done.
Qed.

Lemma visitMutual_NoDup userId fids (r : Recs) mf :
  NoDup r.*1 → NoDup (visitMutual userId fids r mf).*1.
Proof.
  intros Hr. unfold visitMutual. destruct (_ || _); [done|].
  rewrite rec_incr_keys. destruct (bool_decide _); [done|].
  by apply rec_set_NoDup.
Qed.

Lemma visit_fold_NoDup userId fids ps (r : Recs) :
  NoDup r.*1 → NoDup (foldl (visitMutual userId fids) r ps).*1.
Proof.
  revert r. induction ps as [|mf ps IH]; intros r Hr; [done|].
  apply IH. by apply visitMutual_NoDup.
Qed.

(** Step 2 leaves [commonInterests] as step 1 set it. *)
Lemma visit_fold_ci userId fids ps (r : Recs) k :
  ci_of (foldl (visitMutual userId fids) r ps) k = ci_of r k.
Proof.
  revert r. induction ps as [|[j p] ps IH]; intros r; [done|].
  cbn [foldl]. rewrite IH. unfold ci_of. rewrite visitMutual_get.
  destruct (decide (toString j = userId ∨ j ∈ fids)); [done|].
  destruct (decide (j = k)) as [->|]; [|done].
  by destruct (rec_get r k).
Qed.

(** Step 2 adds to [mutualFriends] one for each visit of the key. *)
Lemma visit_fold_mf userId fids ps (r : Recs) k :
  mf_of (foldl (visitMutual userId fids) r ps) k =
    mf_of r k +
    (if decide (toString k = userId ∨ k ∈ fids) then 0 else occurrences k ps.*1).
Proof.
  revert r. induction ps as [|[j p] ps IH]; intros r.
  - cbn [foldl]. destruct (decide _); [lia|]. unfold occurrences. simpl. lia.
  - cbn [foldl]. rewrite IH. unfold mf_of at 1. rewrite visitMutual_get.
    unfold occurrences. rewrite fmap_cons. cbn [fst].
    destruct (decide (j = k)) as [->|Hjk].
    + rewrite filter_cons_True by done.
      destruct (decide (toString k = userId ∨ k ∈ fids)); [done|].
      unfold mf_of. destruct (rec_get r k); simpl; lia.
    + rewrite filter_cons_False by done.
      by destruct (decide (toString j = userId ∨ j ∈ fids)).
Qed.

Lemma visit_fold_keys userId fids ps (r : Recs) k :
  k ∈ (foldl (visitMutual userId fids) r ps).*1 ↔
  k ∈ r.*1 ∨ (¬ (toString k = userId ∨ k ∈ fids) ∧ k ∈ ps.*1).
Proof.
  revert r. induction ps as [|[j p] ps IH]; intros r.
  - cbn. rewrite elem_of_nil. naive_solver.
  - cbn [foldl]. rewrite IH, fmap_cons, elem_of_cons. cbn [fst].
    rewrite <- !rec_get_is_Some, visitMutual_get.
    destruct (decide (toString j = userId ∨ j ∈ fids)) as [Hj|Hj]; [naive_solver|].
    destruct (decide (j = k)) as [->|Hjk]; [|naive_solver].
    split; [intros _; right; by split; [|left]|].
    intros _. left. eauto.
Qed.

Lemma mutualPass_flat (s : Store) userId fids ufs (r : Recs) :
  mutualPass s userId fids ufs r =
    foldl (visitMutual userId fids) r
          (ufs ≫= λ friend, populate s (friends friend.2)).
Proof.
  unfold mutualPass. revert r.
  induction ufs as [|fr ufs IH]; intros r; [done|].
  cbn [foldl]. rewrite IH. rewrite bind_cons, foldl_app. done.
Qed.

(** *** [populate] *)

Lemma elem_of_populate (s : Store) ids id V :
  (id, V) ∈ populate s ids ↔ id ∈ ids ∧ s !! id = Some V.
Proof.
  unfold populate. rewrite list_elem_of_omap. split.
  - intros (x & Hx & Hl). destruct (s !! x) eqn:E; simplify_eq/=. done.
  - intros [Hin Hl]. exists id. by rewrite Hl.
Qed.

Lemma populate_lookup (s : Store) ids id V :
  (id, V) ∈ populate s ids → s !! id = Some V.
Proof. by intros [_ ?]%elem_of_populate. Qed.

(** *** Step 3 *)

Lemma compareFn_le (a b : Recommendation.t) :
  (compareFn a b ≤ 0)%Z ↔ ranks_before a b.
Proof.
  unfold compareFn, ranks_before. destruct (decide _); lia.
Qed.

Lemma ranks_before_total (a b : Recommendation.t) :
  ¬ ranks_before a b → ranks_before b a.
Proof. unfold ranks_before. lia. Qed.

Lemma ranks_before_trans (a b c : Recommendation.t) :
  ranks_before a b → ranks_before b c → ranks_before a c.
Proof. unfold ranks_before. lia. Qed.

Lemma sort_insert_perm cmp x l : sort_insert cmp x l ≡ₚ x :: l.
Proof.
  induction l as [|y l IH]; cbn [sort_insert]; [done|].
  destruct (decide _); [done|]. rewrite IH. apply Permutation_swap.
Qed.

Lemma sort_perm cmp l : sort cmp l ≡ₚ l.
Proof.
  unfold sort. induction l as [|x l IH]; cbn [foldr]; [done|].
  by rewrite sort_insert_perm, IH.
Qed.

Lemma sort_insert_sorted x l :
  StronglySorted ranks_before l →
  StronglySorted ranks_before (sort_insert compareFn x l).
Proof.
  induction 1 as [|y l Hl IH Hy]; cbn [sort_insert].
  - repeat constructor.
  - destruct (decide (compareFn x y ≤ 0)%Z) as [Hxy|Hxy].
    + apply compareFn_le in Hxy. constructor; [by constructor|].
      constructor; [done|].
      eapply Forall_impl; [exact Hy|]. intros z Hz.
      by eapply ranks_before_trans.
    + rewrite compareFn_le in Hxy. apply ranks_before_total in Hxy.
      constructor; [done|].
      rewrite sort_insert_perm. by constructor.
Qed.

Lemma sort_sorted l : StronglySorted ranks_before (sort compareFn l).
Proof.
  unfold sort. induction l as [|x l IH]; cbn [foldr]; [constructor|].
  by apply sort_insert_sorted.
Qed.

(** Elements of the same rank are not moved past each other. *)
Lemma sort_insert_stable c m x l :
  filter (same_rank c m) (sort_insert compareFn x l)
  = filter (same_rank c m) (x :: l).
Proof.
  induction l as [|y l IH]; cbn [sort_insert]; [done|].
  destruct (decide (compareFn x y ≤ 0)%Z) as [Hxy|Hxy]; [done|].
  rewrite (filter_cons _ y), IH, !(filter_cons _ x), (filter_cons _ y).
  destruct (decide (same_rank c m x)) as [[Hx1 Hx2]|]; [|done].
  destruct (decide (same_rank c m y)) as [[Hy1 Hy2]|]; [|done].
  exfalso. apply Hxy. apply compareFn_le. unfold ranks_before. lia.
Qed.

Lemma sort_stable c m l :
  filter (same_rank c m) (sort compareFn l) = filter (same_rank c m) l.
Proof.
  unfold sort. induction l as [|x l IH]; cbn [foldr]; [done|].
  by rewrite sort_insert_stable, !(filter_cons _ x), IH.
Qed.

(** *** The answers of the route *)

Lemma recommend_inr (s : Store) (t : string) l :
  recommend s t = inr l →
  ∃ u U, castObjectId (JString t) = Some u ∧ s !! u = Some U ∧
         l = sort compareFn (entries (collect s t u U)).
Proof.
  unfold recommend. destruct (negb _); [done|].
  destruct (castObjectId (JString t)) as [u|]; [|done].
  destruct (s !! u) as [U|] eqn:HU; [|done].
  intros [= <-]. eauto.
Qed.

Lemma recommend_found (s : Store) (t : string) u U :
  castObjectId (JString t) = Some u → s !! u = Some U →
  recommend s t = inr (sort compareFn (entries (collect s t u U))).
Proof.
  intros Hc HU. unfold recommend.
  by rewrite (isValid_string_cast _ _ Hc), Hc, HU.
Qed.

(** C8. The array that [recommend] answers with is ordered by
    [commonInterests], largest first, and among equal [commonInterests] by
    [mutualFriends], largest first.  It holds the entries of the
    [recommendations] object, and entries that agree on both counters stand
    in the order in which their keys were added to that object: the order is
    a function of the collection and the request. *)
Theorem recommend_sorted (s : Store) (t : string) l :
  recommend s t = inr l →
  StronglySorted ranks_before l ∧
  ∃ u U, castObjectId (JString t) = Some u ∧ s !! u = Some U ∧
       l ≡ₚ entries (collect s t u U) ∧
       ∀ c m, filter (same_rank c m) l
              = filter (same_rank c m) (entries (collect s t u U)).
Proof.
  intros (u & U & Hc & HU & ->)%recommend_inr. split; [apply sort_sorted|].
  exists u, U. split_and!; [done|done|apply sort_perm|intros; apply sort_stable].
Qed.

(** *** The [recommendations] object after both passes *)

Lemma elem_of_findCommonInterest (s : Store) id ints k p :
  (k, p) ∈ findCommonInterest s id ints ↔
  s !! k = Some p ∧ k ≠ id ∧ Exists (λ i, i ∈ ints) (interests p).
Proof.
  unfold findCommonInterest.
  rewrite list_elem_of_filter, elem_of_map_to_list. naive_solver.
Qed.

Lemma findCommonInterest_NoDup (s : Store) id ints :
  NoDup (findCommonInterest s id ints).*1.
Proof.
  unfold findCommonInterest.
  apply (sublist_NoDup _ (map_to_list s).*1); [apply NoDup_fst_map_to_list|].
  apply fmap_sublist, sublist_filter.
Qed.

Lemma lookup_findCommonInterest (s : Store) id ints k p :
  (list_to_map (findCommonInterest s id ints) : gmap ObjectId User) !! k
    = Some p ↔
  s !! k = Some p ∧ k ≠ id ∧ Exists (λ i, i ∈ ints) (interests p).
Proof.
  rewrite <- elem_of_list_to_map by apply findCommonInterest_NoDup.
  apply elem_of_findCommonInterest.
Qed.

(** A rendering that is the segment of the URL is the rendering of the
    caller. *)
Lemma toString_segment (t : string) (u k : ObjectId) :
  castObjectId (JString t) = Some u → toString k = t → k = u.
Proof.
  intros Hc Hk. apply (castObjectId_spells (JString t)); [done|].
  unfold canon. by rewrite Hk.
Qed.

Lemma populated_friend (s : Store) (U : User) k :
  k ∈ friends U → is_Some (s !! k) → k ∈ (populate s (friends U)).*1.
Proof. intros. rewrite populate_ids. by apply list_elem_of_filter. Qed.

(** The keys of the [recommendations] object, from the two passes. *)
Lemma collect_key_iff (s : Store) (t : string) (u : ObjectId) (U : User) k :
  castObjectId (JString t) = Some u →
  k ∈ (collect s t u U).*1 ↔
  (k ∉ friends U) ∧
  ∃ C, s !! k = Some C ∧
    ((k ≠ u ∧ Exists (λ i, i ∈ interests U) (interests C)) ∨
     (toString k ≠ t ∧ ∃ f F, f ∈ friends U ∧ s !! f = Some F ∧ k ∈ friends F)).
Proof.
  intros Hc. unfold collect. rewrite mutualPass_flat, visit_fold_keys.
  rewrite <- rec_get_is_Some, interestPass_get. cbn [rec_get].
  rewrite populate_ids, list_elem_of_fmap. split.
  - intros [[v Hv]|[Hex Hk]].
    + destruct (decide (k ∈ _)) as [|Hf]; [done|].
      destruct (list_to_map _ !! k) as [p|] eqn:E; [|done].
      apply lookup_findCommonInterest in E as (Hs & Hu & Hi).
      split; [|by eauto 10].
      intros Hin. apply Hf. apply list_elem_of_filter. eauto.
    + destruct Hk as ([k' C] & -> & Hin). cbn [fst] in *.
      apply list_elem_of_bind in Hin as ([f F] & HkF & HfU).
      apply elem_of_populate in HkF as [HkF HC].
      apply elem_of_populate in HfU as [HfU HF]. cbn [snd] in *.
      split; [|by eauto 15].
      intros Hin. apply Hex. right. apply list_elem_of_filter. eauto.
  - intros (Hf & C & HC & Hsrc).
    assert (k ∉ filter (λ id, is_Some (s !! id)) (friends U)) as Hfid.
    { rewrite list_elem_of_filter. naive_solver. }
    destruct Hsrc as [[Hu Hex]|(Ht & f & F & HfU & HF & HkF)].
    + left. rewrite decide_False by done.
      assert ((list_to_map (findCommonInterest s u (interests U))
               : gmap ObjectId User) !! k = Some C) as ->; [|by eauto].
      by apply lookup_findCommonInterest.
    + right. split; [naive_solver|].
      exists (k, C). split; [done|].
      apply list_elem_of_bind. exists (f, F). split.
      * by apply elem_of_populate.
      * by apply elem_of_populate.
Qed.

(** Every key of the object is a stored user whose rendering is not the
    segment of the URL and who is not in the caller's [friends]. *)
Lemma collect_keys (s : Store) (t : string) (u : ObjectId) (U : User) k :
  castObjectId (JString t) = Some u →
  k ∈ (collect s t u U).*1 →
  toString k ≠ t ∧ (k ∉ friends U) ∧ is_Some (s !! k).
Proof.
  intros Hc (Hf & C & HC & Hsrc)%collect_key_iff; [|done].
  split_and!; [|done|by eauto].
  destruct Hsrc as [[Hu _]|[Ht _]]; [|done].
  intros Ht. apply Hu. by apply (toString_segment t).
Qed.

Lemma collect_NoDup (s : Store) (t : string) (u : ObjectId) (U : User) :
  NoDup (collect s t u U).*1.
Proof.
  unfold collect. rewrite mutualPass_flat.
  apply visit_fold_NoDup, interestPass_NoDup. constructor.
Qed.

Lemma entries_ids (r : Recs) : Recommendation._id <$> entries r = r.*1.
Proof.
  unfold entries. rewrite <- list_fmap_compose. by apply list_fmap_ext.
Qed.

Lemma recommend_ids (s : Store) (t : string) (u : ObjectId) (U : User) l :
  castObjectId (JString t) = Some u → s !! u = Some U → recommend s t = inr l →
  ∀ k, k ∈ Recommendation._id <$> l ↔ k ∈ (collect s t u U).*1.
Proof.
  intros Hc HU. rewrite (recommend_found _ _ _ _ Hc HU). intros [= <-] k.
  by rewrite sort_perm, entries_ids.
Qed.

(** C5. [recommend] lists the caller when the segment of the URL spells the
    caller's identifier with an upper-case digit.  For a user with one
    friend who has the user in [friends], the answer to the request with
    the upper-case spelling holds the caller, with [mutualFriends] 1; the
    answer to the request with the spelling of [toString()] is empty. *)
Theorem caller_is_recommended :
  castObjectId (JString ID10) = Some 10%N ∧
  ten_eleven !! 10%N = Some ten ∧
  recommend ten_eleven ID10 = inr [Recommendation.mk 10 "ten" 0 1] ∧
  recommend ten_eleven id10 = inr [].
Proof. split_and!; by vm_compute. Qed.

(** X23. No entry of the caller's [friends] is the [_id] of an element of
    the array [recommend] answers with, however the segment of the URL
    spells the caller; the rendering of no [_id] in the array is that
    segment, so that the caller is not in the array when the segment is the
    canonical spelling. *)
Theorem recommend_excludes_friends (s : Store) (t : string) (u : ObjectId) l e :
  castObjectId (JString t) = Some u →
  recommend s t = inr l → e ∈ l →
  (Recommendation._id e ∉ friendsOf s u) ∧
  toString (Recommendation._id e) ≠ t ∧
  (t = toString u → Recommendation._id e ≠ u).
Proof.
  intros Hc Hrec He.
  destruct (recommend_inr _ _ _ Hrec) as (u' & U & Hc' & HU & _).
  assert (u' = u) as -> by congruence.
  assert (Recommendation._id e ∈ (collect s t u U).*1) as Hk.
  { apply (recommend_ids s t u U l Hc HU Hrec). apply list_elem_of_fmap. eauto. }
  apply collect_keys in Hk as (Ht & Hf & _); [|done].
  rewrite (friendsOf_lookup _ _ _ HU). split_and!; [done|done|].
  intros -> Heq. apply Ht. by rewrite Heq.
Qed.

(** *** The counters of a candidate *)

Lemma countCommon_disjoint (U C : User) :
  ¬ Exists (λ i, i ∈ interests U) (interests C) → countCommon U C = 0.
Proof.
  intros Hn. unfold countCommon. rewrite filter_none; [done|].
  intros i Hi HiC. apply Hn, Exists_exists. eauto.
Qed.

Lemma collect_ci (s : Store) (t : string) (u : ObjectId) (U C : User) k :
  castObjectId (JString t) = Some u →
  k ∈ (collect s t u U).*1 → s !! k = Some C →
  ci_of (collect s t u U) k = if decide (k = u) then 0 else countCommon U C.
Proof.
  intros Hc Hk HC. destruct (collect_keys _ _ _ _ _ Hc Hk) as (Ht & Hf & _).
  unfold collect. rewrite mutualPass_flat, visit_fold_ci.
  unfold ci_of. rewrite interestPass_get. cbn [rec_get].
  rewrite decide_False.
  2:{ rewrite populate_ids, list_elem_of_filter. naive_solver. }
  destruct (list_to_map _ !! k) as [p|] eqn:E; cbn.
  - apply lookup_findCommonInterest in E as (Hs & Hu & _).
    rewrite decide_False by done. congruence.
  - destruct (decide (k = u)) as [|Hu]; [done|].
    symmetry. apply countCommon_disjoint. intros Hex.
    assert (is_Some ((list_to_map (findCommonInterest s u (interests U))
                      : gmap ObjectId User) !! k)) as [? ?]; [|congruence].
    exists C. by apply lookup_findCommonInterest.
Qed.

Lemma occurrences_app k l1 l2 :
  occurrences k (l1 ++ l2) = occurrences k l1 + occurrences k l2.
Proof. unfold occurrences. by rewrite filter_app, length_app. Qed.

Lemma occurrences_populate (s : Store) k ids :
  is_Some (s !! k) → occurrences k (populate s ids).*1 = occurrences k ids.
Proof.
  intros Hk. unfold occurrences. rewrite populate_ids, list_filter_filter.
  f_equal. apply list_filter_iff. naive_solver.
Qed.

Lemma occurrences_paths (s : Store) k ids :
  is_Some (s !! k) →
  occurrences k (populate s ids ≫= λ friend, populate s (friends friend.2)).*1
  = sum_list_with (λ f, occurrences k (friendsOf s f)) ids.
Proof.
  intros Hk. induction ids as [|f ids IH]; [done|].
  rewrite populate_cons. cbn [sum_list_with]. unfold friendsOf at 1.
  destruct (s !! f) as [F|]; cbn [from_option].
  - rewrite bind_cons, fmap_app, occurrences_app, IH. cbn [snd].
    by rewrite occurrences_populate.
  - by rewrite IH.
Qed.

Lemma collect_mf (s : Store) (t : string) (u : ObjectId) (U : User) k :
  castObjectId (JString t) = Some u →
  k ∈ (collect s t u U).*1 → mf_of (collect s t u U) k = mutualPaths s U k.
Proof.
  intros Hc Hk. destruct (collect_keys _ _ _ _ _ Hc Hk) as (Ht & Hf & Hs).
  assert (k ∉ (populate s (friends U)).*1) as Hfid.
  { rewrite populate_ids, list_elem_of_filter. naive_solver. }
  unfold collect. rewrite mutualPass_flat, visit_fold_mf.
  rewrite decide_False by naive_solver.
  rewrite occurrences_paths by done.
  unfold mf_of at 1. rewrite interestPass_get. cbn [rec_get].
  rewrite decide_False by done.
  by destruct (list_to_map _ !! k).
Qed.

Lemma entries_counters (r : Recs) e :
  NoDup r.*1 → e ∈ entries r →
  Recommendation.commonInterests e = ci_of r (Recommendation._id e) ∧
  Recommendation.mutualFriends e = mf_of r (Recommendation._id e).
Proof.
  intros Hr ([k v] & -> & Hin)%list_elem_of_fmap.
  apply rec_get_elem in Hin; [|done].
  unfold ci_of, mf_of. cbn. by rewrite Hin.
Qed.

(** The output, with multiplicities: every [_id] occurs once; its
    [commonInterests] is the number of entries of the caller's [interests]
    that occur in the candidate's ([0] for the caller's own entry), and its
    [mutualFriends] the number of paths to the candidate through the
    [friends] arrays. *)
Lemma recommend_counters (s : Store) (t : string) l :
  recommend s t = inr l →
  NoDup (Recommendation._id <$> l) ∧
  ∃ u U, castObjectId (JString t) = Some u ∧ s !! u = Some U ∧
    ∀ e, e ∈ l →
      toString (Recommendation._id e) ≠ t ∧
      (Recommendation._id e ∉ friends U) ∧
      ∃ C, s !! Recommendation._id e = Some C ∧
        Recommendation.commonInterests e
        = (if decide (Recommendation._id e = u) then 0 else countCommon U C) ∧
        Recommendation.mutualFriends e = mutualPaths s U (Recommendation._id e).
Proof.
  intros (u & U & Hc & HU & ->)%recommend_inr. split.
  - rewrite sort_perm, entries_ids. apply collect_NoDup.
  - exists u, U. split; [done|]. split; [done|].
    intros e He. rewrite sort_perm in He.
    assert (Recommendation._id e ∈ (collect s t u U).*1) as Hk.
    { rewrite <- entries_ids. apply list_elem_of_fmap. eauto. }
    destruct (collect_keys _ _ _ _ _ Hc Hk) as (Ht & Hf & [C HC]).
    destruct (entries_counters _ _ (collect_NoDup s t u U) He) as [-> ->].
    split_and!; [done|done|].
    exists C. split_and!; [done|by apply collect_ci|by apply collect_mf].
Qed.

(** *** Arrays without repeated entries *)

Lemma length_filter_elem_of `{Countable A} (l l' : list A) :
  NoDup l →
  length (filter (λ x, x ∈ l') l)
  = size (list_to_set l' ∩ list_to_set l : gset A).
Proof.
  intros Hl. rewrite <- (size_list_to_set (C:=gset A)) by by apply NoDup_filter.
  f_equal. apply set_eq. intros x.
  rewrite elem_of_intersection, !elem_of_list_to_set, list_elem_of_filter.
  tauto.
Qed.

Lemma occurrences_NoDup k (l : list ObjectId) :
  NoDup l → occurrences k l = if decide (k ∈ l) then 1 else 0.
Proof.
  unfold occurrences. induction 1 as [|x l Hx Hl IH].
  - rewrite decide_False; [done|]. apply not_elem_of_nil.
  - rewrite filter_cons. destruct (decide (x = k)) as [->|Hne].
    + cbn [length]. rewrite IH, decide_False by done.
      rewrite decide_True; [done|]. left.
    + rewrite IH. destruct (decide (k ∈ l)) as [Hin|Hin].
      * rewrite decide_True; [done|]. by right.
      * rewrite decide_False; [done|]. rewrite elem_of_cons. naive_solver.
Qed.

Lemma friendsOf_NoDup (s : Store) f :
  map_Forall (λ _ V, NoDup (friends V)) s → NoDup (friendsOf s f).
Proof.
  intros Hs. unfold friendsOf. destruct (s !! f) as [F|] eqn:E; cbn.
  - by apply (Hs f F).
  - constructor.
Qed.

Lemma mutualPaths_symmetric (s : Store) (U C : User) k :
  map_Forall (λ _ V, NoDup (friends V)) s → symmetric s →
  NoDup (friends U) → s !! k = Some C → k ∉ friends U →
  mutualPaths s U k
  = size (list_to_set (friends U) ∩ list_to_set (friends C) : gset ObjectId).
Proof.
  intros Hnd Hsym HU HC Hk. unfold mutualPaths.
  assert (∀ l, (∀ f, f ∈ l → f ≠ k) →
            sum_list_with (λ f, occurrences k (friendsOf s f)) l
            = length (filter (λ f, f ∈ friends C) l)) as Hsum.
  { induction l as [|f l IH]; intros Hl; [done|].
    cbn [sum_list_with]. rewrite IH by (intros; apply Hl; by right).
    rewrite filter_cons, occurrences_NoDup by by apply friendsOf_NoDup.
    assert (k ∈ friendsOf s f ↔ f ∈ friends C) as Hiff.
    { rewrite <- (friendsOf_lookup s k C HC). symmetry. apply Hsym.
      apply Hl. left. }
    destruct (decide (f ∈ friends C)).
    - rewrite decide_True by by apply Hiff. done.
    - rewrite decide_False by by rewrite Hiff. done. }
  rewrite Hsum by (intros f Hf ->; done).
  rewrite length_filter_elem_of by done.
  f_equal. apply set_eq. intros x. rewrite !elem_of_intersection. tauto.
Qed.

(** A stored user that step 1 does not find shares no interest with the
    caller. *)
Lemma countCommon_not_found (s : Store) (u : ObjectId) (U C : User) k :
  s !! k = Some C → k ≠ u →
  k ∉ (findCommonInterest s u (interests U)).*1 → countCommon U C = 0.
Proof.
  intros HC Hu Hk. apply countCommon_disjoint. intros Hex. apply Hk.
  apply list_elem_of_fmap. exists (k, C). split; [done|].
  by apply elem_of_findCommonInterest.
Qed.

(** C4. In a collection where the caller's [interests] array and the
    [friends] arrays hold no value twice and [friends] is symmetric, every
    [_id] occurs once in the array [recommend] answers with, and the element
    for a candidate other than the caller has [commonInterests] equal to the
    number of interests the candidate and the caller share ([0] for a
    candidate that step 1 did not find) and [mutualFriends] equal to the
    number of users who are friends of both: each counter is what its own
    pass computes, whatever the other pass does with the same entry.  When
    the segment of the URL is the canonical spelling of the caller, every
    element is for a candidate other than the caller. *)
Theorem recommend_additive (s : Store) (t : string) (u : ObjectId) (U : User) l :
  castObjectId (JString t) = Some u → s !! u = Some U →
  NoDup (interests U) →
  map_Forall (λ _ V, NoDup (friends V)) s →
  symmetric s →
  recommend s t = inr l →
  NoDup (Recommendation._id <$> l) ∧
  (∀ e, e ∈ l → Recommendation._id e ≠ u →
    ∃ C, s !! Recommendation._id e = Some C ∧
      Recommendation.commonInterests e
      = size (list_to_set (interests C) ∩ list_to_set (interests U) : gset string) ∧
      (Recommendation._id e ∉ (findCommonInterest s u (interests U)).*1 →
       Recommendation.commonInterests e = 0) ∧
      Recommendation.mutualFriends e
      = size (list_to_set (friends U) ∩ list_to_set (friends C) : gset ObjectId)) ∧
  (t = toString u → ∀ e, e ∈ l → Recommendation._id e ≠ u).
Proof.
  intros Hc HU Hint Hnd Hsym Hrec.
  destruct (recommend_counters _ _ _ Hrec) as (Hids & u' & U' & Hc' & HU' & Hl).
  assert (u' = u) as -> by congruence. assert (U' = U) as -> by congruence.
  split; [done|]. split.
  - intros e He Hne.
    destruct (Hl e He) as (Ht & Hf & C & HC & Hci & Hmf).
    rewrite decide_False in Hci by done.
    exists C. split_and!; [done| | |].
    + rewrite Hci. unfold countCommon. by apply length_filter_elem_of.
    + intros Hk. rewrite Hci. by eapply countCommon_not_found.
    + rewrite Hmf. apply mutualPaths_symmetric; try done. by apply (Hnd u U).
  - intros -> e He Heq. destruct (Hl e He) as (Ht & _). apply Ht. by rewrite Heq.
Qed.

Lemma recommend_repeated_interest_counterexample :
  castObjectId (JString id1) = Some 1%N ∧ toString 1 = id1 ∧
  repeated_interest !! 1%N = Some repeated_user ∧
  repeated_interest !! 2%N = Some repeated_candidate ∧
  recommend repeated_interest id1 = inr [Recommendation.mk 2 "c" 2 0] ∧
  Recommendation.commonInterests (Recommendation.mk 2 "c" 2 0)
  ≠ size (list_to_set (interests repeated_candidate)
          ∩ list_to_set (interests repeated_user) : gset string).
Proof. split_and!; by vm_compute. Qed.

(** Each path through a repeated [friends] entry is counted. *)
Example recommend_repeated_friend :
  recommend repeated_friend id1 = inr [Recommendation.mk 3 "c" 0 2] ∧
  size (list_to_set [2; 2]%N ∩ list_to_set [2%N] : gset ObjectId) = 1.
Proof. split; by vm_compute. Qed.

(** The friend's array is the one that is read, not the candidate's. *)
Example recommend_one_sided :
  recommend one_sided id1 = inr [Recommendation.mk 3 "c" 0 1] ∧
  size (list_to_set [2%N] ∩ list_to_set [] : gset ObjectId) = 0.
Proof. split; by vm_compute. Qed.

(** * Further properties of the recommendation route *)

Lemma countCommon_pos (U C : User) :
  Exists (λ i, i ∈ interests U) (interests C) → 0 < countCommon U C.
Proof.
  intros (i & HiC & HiU)%Exists_exists. unfold countCommon.
  assert (i ∈ filter (λ interest, interest ∈ interests C) (interests U)) as Hin
    by by apply list_elem_of_filter.
  destruct (filter _ _); [by apply elem_of_nil in Hin|cbn; lia].
Qed.

Lemma mutualPaths_pos (s : Store) (U F : User) f k :
  f ∈ friends U → s !! f = Some F → k ∈ friends F → 0 < mutualPaths s U k.
Proof.
  intros HfU HF HkF. unfold mutualPaths.
  pose proof (sum_list_with_in f (λ f, occurrences k (friendsOf s f)) _ HfU) as Hle.
  cbn in Hle. rewrite (friendsOf_lookup _ _ _ HF) in Hle.
  assert (0 < occurrences k (friends F)); [|lia].
  unfold occurrences.
  assert (k ∈ filter (λ j, j = k) (friends F)) as Hin
    by by apply list_elem_of_filter.
  destruct (filter _ _); [by apply elem_of_nil in Hin|cbn; lia].
Qed.

(** X15. Who is recommended: the [_id]s in the answer of [recommend] are
    exactly the stored users outside the caller's [friends] who are not the
    caller and have an interest that is among the caller's, or whose
    rendering is not the segment of the URL and who are in the [friends] of
    a stored user that is in the caller's [friends]. *)
Theorem recommend_complete (s : Store) (t : string) (u : ObjectId) (U : User) l k :
  castObjectId (JString t) = Some u → s !! u = Some U → recommend s t = inr l →
  k ∈ Recommendation._id <$> l ↔
  (k ∉ friends U) ∧
  ∃ C, s !! k = Some C ∧
    ((k ≠ u ∧ Exists (λ i, i ∈ interests U) (interests C)) ∨
     (toString k ≠ t ∧ ∃ f F, f ∈ friends U ∧ s !! f = Some F ∧ k ∈ friends F)).
Proof.
  intros Hc HU Hrec. rewrite (recommend_ids s t u U l Hc HU Hrec).
  by apply collect_key_iff.
Qed.

(** X16. Nobody is recommended without a reason: every element of the
    answer of [recommend] has [commonInterests] or [mutualFriends] at least
    1. *)
Theorem recommend_has_signal (s : Store) (t : string) l e :
  recommend s t = inr l → e ∈ l →
  0 < Recommendation.commonInterests e ∨ 0 < Recommendation.mutualFriends e.
Proof.
  intros Hrec He.
  destruct (recommend_counters _ _ _ Hrec) as (_ & u & U & Hc & HU & Hl).
  destruct (Hl e He) as (_ & _ & C & HC & -> & ->).
  assert (Recommendation._id e ∈ (collect s t u U).*1) as Hk.
  { apply (recommend_ids s t u U l Hc HU Hrec). apply list_elem_of_fmap. eauto. }
  apply collect_key_iff in Hk as (_ & C' & HC' & Hsrc); [|done].
  assert (C' = C) as -> by congruence.
  destruct Hsrc as [[Hu Hex]|(_ & f & F & HfU & HF & HkF)].
  - left. rewrite decide_False by done. by apply countCommon_pos.
  - right. by eapply mutualPaths_pos.
Qed.

(** X17. A caller with no interests and no friends gets an empty list of
    recommendations, not an error. *)
Theorem recommend_nothing_to_go_on (s : Store) (t : string) (u : ObjectId) (U : User) :
  castObjectId (JString t) = Some u →
  s !! u = Some U → interests U = [] → friends U = [] →
  recommend s t = inr [].
Proof.
  intros Hc HU Hi Hf. rewrite (recommend_found _ _ _ _ Hc HU).
  unfold collect. rewrite Hi, Hf.
  assert (findCommonInterest s u [] = []) as ->; [|done].
  unfold findCommonInterest. apply filter_none.
  intros [k C] _ [_ Hex]. apply Exists_exists in Hex as (i & _ & Hin).
  by apply elem_of_nil in Hin.
Qed.

Lemma interestPass_names (s : Store) user fids cius (r : Recs) :
  (∀ k v, rec_get r k = Some v →
          ∃ C, s !! k = Some C ∧ Candidate.username v = username C) →
  (∀ k p, (k, p) ∈ cius → s !! k = Some p) →
  ∀ k v, rec_get (interestPass user fids cius r) k = Some v →
         ∃ C, s !! k = Some C ∧ Candidate.username v = username C.
Proof.
  intros Hr Hc k v. rewrite interestPass_get.
  destruct (rec_get r k) as [v'|] eqn:E.
  - intros [= <-]. by apply Hr.
  - destruct (decide (k ∈ fids)); [done|].
    destruct (list_to_map _ !! k) as [p|] eqn:Ep; [|done].
    intros [= <-]. apply elem_of_list_to_map_2 in Ep. exists p.
    split; [by apply Hc|done].
Qed.

Lemma visit_fold_names (s : Store) userId fids ps (r : Recs) :
  (∀ k v, rec_get r k = Some v →
          ∃ C, s !! k = Some C ∧ Candidate.username v = username C) →
  (∀ j p, (j, p) ∈ ps → s !! j = Some p) →
  ∀ k v, rec_get (foldl (visitMutual userId fids) r ps) k = Some v →
         ∃ C, s !! k = Some C ∧ Candidate.username v = username C.
Proof.
  revert r. induction ps as [|[j p] ps IH]; intros r Hr Hps; [done|].
  cbn [foldl]. apply IH.
  - intros k v. rewrite visitMutual_get.
    destruct (decide (toString j = userId ∨ j ∈ fids)); [by apply Hr|].
    destruct (decide (j = k)) as [->|]; [|by apply Hr].
    intros [= <-]. destruct (rec_get r k) as [v'|] eqn:E; cbn.
    + by apply Hr.
    + exists p. split; [|done]. apply Hps. left.
  - intros j' p' Hin. apply Hps. by right.
Qed.

(** X18. Every element of the answer of [recommend] carries the [username]
    of the stored user its [_id] names. *)
Theorem recommend_username (s : Store) (t : string) l e :
  recommend s t = inr l → e ∈ l →
  ∃ C, s !! Recommendation._id e = Some C ∧
       Recommendation.username e = username C.
Proof.
  intros (u & U & Hc & HU & ->)%recommend_inr He. rewrite sort_perm in He.
  apply list_elem_of_fmap in He as ([k v] & -> & Hin). cbn.
  apply rec_get_elem in Hin; [|apply collect_NoDup].
  revert Hin. unfold collect. rewrite mutualPass_flat.
  apply visit_fold_names.
  - apply interestPass_names; [done|].
    intros k' p Hin. by apply elem_of_findCommonInterest in Hin as [? _].
  - intros j p Hin. apply list_elem_of_bind in Hin as ([f F] & Hin & _).
    by apply populate_lookup in Hin.
Qed.

(** X19. Once [acceptRequest(u, f)], spelling [f] canonically, has made two
    different users friends, neither is in the answer of [recommend] for
    the other, however the segment of the URL spells the caller. *)
Theorem friends_are_not_recommended now ru (tu tf : string) u f (s : Store) U F lu lf :
  castObjectId ru = Some u → twelveBytes f →
  castObjectId (JString tu) = Some u → castObjectId (JString tf) = Some f →
  u ≠ f → s !! u = Some U → s !! f = Some F → f ∈ friendRequests U →
  recommend (acceptRequest now ru (canon f) s).1 tu = inr lu →
  recommend (acceptRequest now ru (canon f) s).1 tf = inr lf →
  (f ∉ Recommendation._id <$> lu) ∧ (u ∉ Recommendation._id <$> lf).
Proof.
  intros Hcu Hf Htu Htf Hne HU HF Hin. assert (f ≠ u) as Hne' by done.
  rewrite (acceptRequest_pending now ru u f s U F) by done. cbn [fst].
  match goal with |- context [recommend ?st tu] => set (s' := st) end.
  assert (s' !! u = Some (mkUser (username U) (password U) (friends U ++ [f])
            (filter (λ id, id ≠ f) (friendRequests U)) (interests U)
            (notifications U) (version U + 1)%N)) as Hsu.
  { unfold s'. rewrite lookup_insert_ne by done. apply lookup_insert_eq. }
  assert (is_Some (s' !! f)) as [F' Hsf].
  { unfold s'. rewrite lookup_insert_eq. eauto. }
  assert (u ∈ friends F') as HuF'.
  { unfold s' in Hsf. rewrite lookup_insert_eq in Hsf. injection Hsf as <-.
    cbn. rewrite elem_of_app, list_elem_of_singleton. by right. }
  intros Hlu Hlf. split; intros Hk.
  - apply (recommend_ids _ _ _ _ _ Htu Hsu Hlu), collect_key_iff in Hk
      as (Hnot & _); [|done].
    apply Hnot. cbn. rewrite elem_of_app, list_elem_of_singleton. by right.
  - apply (recommend_ids _ _ _ _ _ Htf Hsf Hlf), collect_key_iff in Hk
      as (Hnot & _); done.
Qed.

(** * The properties on sample collections *)

Lemma recommend_additive_witness :
  NoDup (Recommendation._id <$> hub_output) ∧
  (∀ e, e ∈ hub_output → Recommendation._id e ≠ 1%N →
    ∃ C, hub !! Recommendation._id e = Some C ∧
      Recommendation.commonInterests e
      = size (list_to_set (interests C) ∩ list_to_set (interests hub_user)
              : gset string) ∧
      (Recommendation._id e ∉ (findCommonInterest hub 1 (interests hub_user)).*1 →
       Recommendation.commonInterests e = 0) ∧
      Recommendation.mutualFriends e
      = size (list_to_set (friends hub_user) ∩ list_to_set (friends C)
              : gset ObjectId)) ∧
  (id1 = toString 1 → ∀ e, e ∈ hub_output → Recommendation._id e ≠ 1%N).
Proof.
  apply (recommend_additive hub id1 1 hub_user hub_output).
  - by vm_compute.
  - by vm_compute.
  - apply (bool_decide_unpack _). by vm_compute.
  - apply (bool_decide_unpack _). by vm_compute.
  - apply symmetric_check_iff, (bool_decide_unpack _). by vm_compute.
  - by vm_compute.
Defined.

Lemma recommend_sorted_witness :
  StronglySorted ranks_before ranking_output ∧
  ∃ u U, castObjectId (JString id1) = Some u ∧ ranking !! u = Some U ∧
       ranking_output ≡ₚ entries (collect ranking id1 u U) ∧
       ∀ c m, filter (same_rank c m) ranking_output
              = filter (same_rank c m) (entries (collect ranking id1 u U)).
Proof. apply (recommend_sorted ranking id1 ranking_output). by vm_compute. Defined.

Lemma client_error_writes_nothing_witness :
  (serve two_users (OpAccept 5 (JString id1) (JString id2))).1 = two_users.
Proof.
  apply (client_error_writes_nothing two_users
           (OpAccept 5 (JString id1) (JString id2))); by vm_compute.
Defined.


Lemma numeric_id_is_server_error_witness :
  sendRequest 10 (JNumber 7) (JString id2) two_users = (two_users, serverError).
Proof.
  destruct (numeric_id_is_server_error 10 7 (JString id2) two_users)
    as (_ & _ & _ & _ & _ & _ & H & _); [by vm_compute|].
  by destruct H.
Defined.

Lemma invalid_id_is_refused_witness :
  serve two_users (OpRequest 10 (JString "alice") (JString id2))
  = (two_users, invalidUserIds).
Proof.
  apply (invalid_id_is_refused two_users
           (OpRequest 10 (JString "alice") (JString id2))).
  left. by vm_compute.
Defined.

Lemma canonical_crossed_requests : Forall canonical_op crossed_requests.
Proof. repeat (constructor; [split; by vm_compute|]). constructor. Qed.

Lemma friends_symmetric_when_canonical_witness :
  1%N ∈ friendsOf (run two_users crossed_requests) 2 ↔
  2%N ∈ friendsOf (run two_users crossed_requests) 1.
Proof.
  apply (friends_symmetric_when_canonical two_users crossed_requests);
    [apply canonical_crossed_requests| |done].
  apply symmetric_check_iff, (bool_decide_unpack _). by vm_compute.
Defined.

Lemma no_self_pairs_kept_witness :
  no_self_pairs (run two_users crossed_requests).
Proof.
  apply (no_self_pairs_kept two_users crossed_requests);
    [apply canonical_crossed_requests|].
  apply no_self_pairs_check_iff, (bool_decide_unpack _). by vm_compute.
Defined.

Lemma pending_distinct_kept_witness :
  pending_distinct (run two_users crossed_requests).
Proof.
  apply (pending_distinct_kept two_users crossed_requests);
    [apply canonical_crossed_requests|].
  apply (bool_decide_unpack _). by vm_compute.
Defined.

Lemma sendRequest_frame_witness :
  ∃ u f U F, castObjectId (JString id1) = Some u ∧
    castObjectId (JString id2) = Some f ∧
    two_users !! u = Some U ∧ two_users !! f = Some F ∧
    (sendRequest 10 (JString id1) (JString id2) two_users).1 !! f =
      Some (mkUser (username F) (password F) (friends F)
              (friendRequests F ++ [u]) (interests F)
              (notifications F ++
                 [mkNotification (username U +:+ " has sent you a friend request.") 10])
              (version F + 1)%N) ∧
    (∀ j, j ≠ f →
       (sendRequest 10 (JString id1) (JString id2) two_users).1 !! j
       = two_users !! j) ∧
    (wellSpelled (JString id1) → wellSpelled (JString id2) → u ≠ f).
Proof.
  apply (sendRequest_frame 10 (JString id1) (JString id2) two_users).
  by vm_compute.
Defined.

Lemma reject_consumes_request_witness :
  (rejectRequest 11 (JString id1) (JString id2)
     (run two_users [OpRequest 10 (JString id2) (JString id1)])).2
  = mkResponse 200 "Friend request rejected." ∧
  rejectRequest 12 (JString id1) (JString id2)
    (rejectRequest 11 (JString id1) (JString id2)
       (run two_users [OpRequest 10 (JString id2) (JString id1)])).1
  = ((rejectRequest 11 (JString id1) (JString id2)
        (run two_users [OpRequest 10 (JString id2) (JString id1)])).1,
     NoSuchRequest).
Proof.
  destruct (reject_consumes_request 11 12 (JString id1) (JString id2) 1 2
              (run two_users [OpRequest 10 (JString id2) (JString id1)])
              alice_asked bob)
    as (H1 & H2);
    [by vm_compute|by vm_compute|by vm_compute|by vm_compute
    |apply (bool_decide_unpack _); by vm_compute|].
  split; [apply H1; by vm_compute|].
  destruct H2 as (_ & _ & _ & _ & _ & H2); [by vm_compute|exact H2].
Defined.

Lemma accept_makes_friends_witness :
  friendsOf (acceptRequest 11 (canon 1) (canon 2)
               (run two_users [OpRequest 10 (JString id2) (JString id1)])).1 1
  = [2%N] ∧
  sendRequest 12 (canon 2) (canon 1)
    (acceptRequest 11 (canon 1) (canon 2)
       (run two_users [OpRequest 10 (JString id2) (JString id1)])).1
  = ((acceptRequest 11 (canon 1) (canon 2)
        (run two_users [OpRequest 10 (JString id2) (JString id1)])).1,
     AlreadyFriends).
Proof.
  destruct (accept_makes_friends 11 12 1 2
              (run two_users [OpRequest 10 (JString id2) (JString id1)])
              alice_asked bob)
    as (_ & H1 & _ & _ & _ & H2);
    [by vm_compute|by vm_compute|done|by vm_compute|by vm_compute
    |apply (bool_decide_unpack _); by vm_compute|].
  split; [exact H1|exact H2].
Defined.

Lemma accept_then_unfriend_restores_friends_witness :
  friendsOf (unfriend 12 (canon 2) (canon 1)
    (acceptRequest 11 (canon 1) (canon 2)
       (run two_users [OpRequest 10 (JString id2) (JString id1)])).1).1 1
  = friendsOf (run two_users [OpRequest 10 (JString id2) (JString id1)]) 1.
Proof.
  destruct (accept_then_unfriend_restores_friends 11 12 1 2
              (run two_users [OpRequest 10 (JString id2) (JString id1)])
              alice_asked bob)
    as (_ & _ & H);
    [by vm_compute|by vm_compute|done|by vm_compute|by vm_compute
    |apply (bool_decide_unpack _); by vm_compute
    |apply (bool_decide_unpack _); by vm_compute
    |apply (bool_decide_unpack _); by vm_compute|].
  exact (H 1%N).
Defined.

Lemma request_then_reject_restores_pending_witness :
  pendingOf (rejectRequest 11 (canon 2) (canon 1)
               (sendRequest 10 (canon 1) (canon 2) two_users).1).1 2
  = pendingOf two_users 2.
Proof.
  destruct (request_then_reject_restores_pending 10 11 1 2 two_users alice bob)
    as (_ & _ & H & _);
    [by vm_compute|by vm_compute|done|by vm_compute|by vm_compute
    |apply (bool_decide_unpack _); by vm_compute..|].
  exact (H 2%N).
Defined.

Lemma unfriended_can_ask_again_witness :
  status (sendRequest 31 (canon 1) (canon 2)
            (unfriend 30 (canon 1) (canon 2) hub).1).2 = 200.
Proof.
  destruct (unfriended_can_ask_again 30 31 1 2 hub hub_user
              (mkUser "f2" "$2a$10$2" [1; 5]%N [] [] [] 0))
    as (_ & _ & _ & H); [by vm_compute|by vm_compute|done|by vm_compute|by vm_compute|].
  apply H. apply (bool_decide_unpack _); by vm_compute.
Defined.

Lemma disjoint_requests_commute_witness :
  (serve (serve hub (OpRequest 20 (JString id1) (JString "000000000000000000000005"))).1
         (OpUnfriend 21 (JString id2) (JString "000000000000000000000003"))).1
  = (serve (serve hub (OpUnfriend 21 (JString id2) (JString "000000000000000000000003"))).1
           (OpRequest 20 (JString id1) (JString "000000000000000000000005"))).1.
Proof.
  destruct (disjoint_requests_commute hub
              (OpRequest 20 (JString id1) (JString "000000000000000000000005"))
              (OpUnfriend 21 (JString id2) (JString "000000000000000000000003")))
    as (_ & _ & H); [|exact H].
  intros a Ha. apply (bool_decide_unpack _). revert a Ha.
  apply Forall_forall. apply (bool_decide_unpack _). by vm_compute.
Defined.

Lemma listUsers_lists_the_others_witness :
  ∃ l, listUsers two_users id1 = inr l ∧
    NoDup l.*1 ∧
    (∀ id name, (id, name) ∈ l ↔
                id ≠ 1%N ∧ ∃ V, two_users !! id = Some V ∧ username V = name) ∧
    (two_users !! 1%N = None → length l = size two_users).
Proof. apply (listUsers_lists_the_others two_users id1 1). by vm_compute. Defined.

Lemma request_is_listed_witness :
  ∃ u U, castObjectId (JString id1) = Some u ∧ two_users !! u = Some U ∧
       listFriendRequests (sendRequest 10 (JString id1) (JString id2) two_users).1 id2
       = inr ([] ++ [(u, username U)]).
Proof.
  apply (request_is_listed 10 (JString id1) (JString id2) id2 two_users []);
    by vm_compute.
Defined.

Lemma accepted_friend_is_listed_witness :
  listFriends (acceptRequest 11 (JString id1) (canon 2)
                 (run two_users [OpRequest 10 (JString id2) (JString id1)])).1 id1
    = inr ([] ++ [(2%N, username bob)]).
Proof.
  destruct (accepted_friend_is_listed 11 (JString id1) id1 id2 1 2
              (run two_users [OpRequest 10 (JString id2) (JString id1)])
              alice_asked bob [] [])
    as (H & _);
    [by vm_compute|by vm_compute|by vm_compute|by vm_compute|done
    |by vm_compute|by vm_compute|apply (bool_decide_unpack _); by vm_compute
    |by vm_compute|by vm_compute|].
  exact H.
Defined.

Lemma recommend_excludes_friends_witness :
  (Recommendation._id (Recommendation.mk 3 "c3" 1 1) ∉ friendsOf ranking 1) ∧
  toString (Recommendation._id (Recommendation.mk 3 "c3" 1 1)) ≠ id1 ∧
  (id1 = toString 1 → Recommendation._id (Recommendation.mk 3 "c3" 1 1) ≠ 1%N).
Proof.
  apply (recommend_excludes_friends ranking id1 1 ranking_output);
    [by vm_compute|by vm_compute|].
  unfold ranking_output. do 2 apply list_elem_of_further. apply list_elem_of_here.
Defined.

Lemma recommend_complete_witness :
  6%N ∈ Recommendation._id <$> ranking_output ↔
  (6%N ∉ friends ranking_user) ∧
  ∃ C, ranking !! 6%N = Some C ∧
    ((6%N ≠ 1%N ∧ Exists (λ i, i ∈ interests ranking_user) (interests C)) ∨
     (toString 6 ≠ id1 ∧
      ∃ f F, f ∈ friends ranking_user ∧ ranking !! f = Some F ∧ 6%N ∈ friends F)).
Proof.
  apply (recommend_complete ranking id1 1 ranking_user ranking_output); by vm_compute.
Defined.

Lemma recommend_has_signal_witness :
  0 < Recommendation.commonInterests (Recommendation.mk 5 "c5" 1 0) ∨
  0 < Recommendation.mutualFriends (Recommendation.mk 5 "c5" 1 0).
Proof.
  apply (recommend_has_signal ranking id1 ranking_output); [by vm_compute|].
  unfold ranking_output. do 3 apply list_elem_of_further. apply list_elem_of_here.
Defined.

Lemma recommend_nothing_to_go_on_witness : recommend loner id1 = inr [].
Proof.
  apply (recommend_nothing_to_go_on loner id1 1 loner_user); by vm_compute.
Defined.

Lemma recommend_username_witness :
  ∃ C, ranking !! Recommendation._id (Recommendation.mk 4 "c4" 2 1) = Some C ∧
       Recommendation.username (Recommendation.mk 4 "c4" 2 1) = username C.
Proof.
  apply (recommend_username ranking id1 ranking_output); [by vm_compute|].
  unfold ranking_output. apply list_elem_of_here.
Defined.

Lemma friends_are_not_recommended_witness :
  (2%N ∉ Recommendation._id <$> []) ∧ (1%N ∉ Recommendation._id <$> []).
Proof.
  apply (friends_are_not_recommended 11 (JString id1) id1 id2 1 2
           (run two_users [OpRequest 10 (JString id2) (JString id1)])
           alice_asked bob [] []);
    [by vm_compute|by vm_compute|by vm_compute|by vm_compute|done
    |by vm_compute|by vm_compute|apply (bool_decide_unpack _); by vm_compute
    |by vm_compute|by vm_compute].
Defined.
